(** * direct_conv: patch accumulation and its hand-derived gradient

    A shallow embedding of the "Direct gradients" cell of
    [direct_conv.ipynb], of the part of numpy it calls, and of the scene
    builder, followed by the properties proved about them.

    Layout:
    - [Num]: the element type of an array and its arithmetic;
    - [result]: Python exceptions as an error monad;
    - [ndarray3], [ndarray2]: shaped arrays, slices, broadcasting, [einsum];
    - the notebook functions, under their own names;
    - [Store]: the same pipeline over a heap of array objects, where
      [+=] is an in-place write;
    - [build_scene] over an abstract random generator;
    - the theorems. *)

From Stdlib Require Import ZArith List Lia Bool PrimFloat Uint63.
From Stdlib Require Import FloatOps SpecFloat QArith Qcanon Ring.
From stdpp Require Import base option list gmap.

Set Default Proof Using "Type".
Open Scope Z_scope.

(** ** Array elements *)

(** The notebook's arrays hold float64 (or integers that numpy promotes).
    The code is written once over the element operations it uses. *)
Class Num (T : Type) := {
  num_zero : T;
  num_one : T;
  num_add : T -> T -> T;
  num_sub : T -> T -> T;
  num_mul : T -> T -> T;
  num_div : T -> T -> T;
  num_of_Z : Z -> T
}.

Declare Scope num_scope.
Delimit Scope num_scope with num.
Infix "+!" := num_add (at level 50, left associativity) : num_scope.
Infix "-!" := num_sub (at level 50, left associativity) : num_scope.
Infix "*!" := num_mul (at level 40, left associativity) : num_scope.
Infix "/!" := num_div (at level 40, left associativity) : num_scope.
Open Scope num_scope.

(** Exact integer arithmetic; the quotient is rounded down (only the
    scene builder divides). *)
#[export] Instance Z_Num : Num Z := {
  num_zero := 0; num_one := 1;
  num_add := Z.add; num_sub := Z.sub; num_mul := Z.mul; num_div := Z.div;
  num_of_Z := fun z => z
}.

(** IEEE 754 binary64, the kernel's primitive floats: numpy's float64. *)
Definition float_of_Z (z : Z) : float :=
  if z <? 0 then PrimFloat.opp (PrimFloat.of_uint63 (Uint63.of_Z (- z)))
  else PrimFloat.of_uint63 (Uint63.of_Z z).

#[export] Instance float_Num : Num float := {
  num_zero := PrimFloat.zero; num_one := PrimFloat.one;
  num_add := PrimFloat.add; num_sub := PrimFloat.sub;
  num_mul := PrimFloat.mul; num_div := PrimFloat.div;
  num_of_Z := float_of_Z
}.

(** ** Exceptions *)

Inductive exn : Set :=
| IndexError          (* sequence index out of range *)
| ValueError          (* operands could not be broadcast together; low >= high *)
| UnboundLocalError   (* local variable referenced before assignment *)
| TypeError.          (* an object of another kind than the operation needs *)

Inductive result (A : Type) : Type :=
| Ok (a : A)
| Err (e : exn).
Arguments Ok {A} a.
Arguments Err {A} e.

#[export] Instance result_ret : MRet result := fun A a => Ok a.
#[export] Instance result_bind : MBind result := fun A B f m =>
  match m with Ok a => f a | Err e => Err e end.

Definition is_ok {A} (r : result A) : bool :=
  match r with Ok _ => true | Err _ => false end.

(** A [for] loop over a list of indices whose body may raise. *)
Fixpoint foldM {A S : Type} (body : S -> A -> result S) (s : S) (l : list A)
  : result S :=
  match l with
  | [] => Ok s
  | a :: l' => s' ← body s a; foldM body s' l'
  end.

(** [l[k]] for [k] produced by [range]: never negative. *)
Definition index {A} (l : list A) (k : nat) : result A :=
  match l !! k with Some a => Ok a | None => Err IndexError end.

(** ** Slices *)

(** Python's [slice(start, stop)], step 1. *)
Record slice : Set := Slice { start : Z; stop : Z }.

Definition box : Set := (slice * slice)%type.

(** How Python places one bound of a slice in a dimension of length [n]:
    a negative bound counts from the end, and every bound is clipped. *)
Definition clip_bound (v : Z) (n : nat) : Z :=
  if v <? 0 then Z.max (v + Z.of_nat n) 0 else Z.min v (Z.of_nat n).

(** [slice.indices(n)]: first index and number of indices selected. *)
Definition slice_indices (s : slice) (n : nat) : nat * nat :=
  let a := clip_bound (start s) n in
  let b := clip_bound (stop s) n in
  (Z.to_nat a, Z.to_nat (b - a)).

(** ** Broadcasting *)

(** Length of a dimension after broadcasting two operands. *)
Definition bdim (d1 d2 : nat) : option nat :=
  if (d1 =? d2)%nat then Some d1
  else if (d1 =? 1)%nat then Some d2
  else if (d2 =? 1)%nat then Some d1
  else None.

(** Index into an operand's dimension of length [d] at broadcast index [i]. *)
Definition bidx (d i : nat) : nat := if (d =? 1)%nat then 0%nat else i.

(** An in-place operation cannot grow its destination: each dimension of
    the source has the destination's length, or length 1. *)
Definition fits (dsrc ddst : nat) : bool := (dsrc =? ddst)%nat || (dsrc =? 1)%nat.

Definition raise_unless (b : bool) (e : exn) : result unit :=
  if b then Ok tt else Err e.

Definition of_option {A} (o : option A) (e : exn) : result A :=
  match o with Some a => Ok a | None => Err e end.

(** ** Arrays *)

Section Arrays.
Context {T : Type} `{Num T}.

(** A three-dimensional array (channel, row, column) and a
    two-dimensional one, each with its shape. *)
Record ndarray3 : Type := NdArray3 {
  shape3 : nat * nat * nat;
  data3 : list (list (list T))
}.

Record ndarray2 : Type := NdArray2 {
  shape2 : nat * nat;
  data2 : list (list T)
}.

Definition get1 (v : list T) (c : nat) : T := nth c v num_zero.
Definition get2 (a : ndarray2) (i j : nat) : T :=
  nth j (nth i (data2 a) []) num_zero.
Definition get3 (a : ndarray3) (c i j : nat) : T :=
  nth j (nth i (nth c (data3 a) []) []) num_zero.

Definition tab1 (n : nat) (f : nat -> T) : list T := map f (seq 0 n).
Definition tab2 (n m : nat) (f : nat -> nat -> T) : ndarray2 :=
  NdArray2 (n, m) (map (fun i => tab1 m (f i)) (seq 0 n)).
Definition tab3 (b n m : nat) (f : nat -> nat -> nat -> T) : ndarray3 :=
  NdArray3 (b, n, m) (map (fun c => data2 (tab2 n m (f c))) (seq 0 b)).

(** [np.zeros(shape)] *)
Definition np_zeros (shape : nat * nat * nat) : ndarray3 :=
  let '(b, n, m) := shape in tab3 b n m (fun _ _ _ => num_zero).

(** [a[:, box[0], box[1]]]: slicing clips, it never raises. *)
Definition getitem_box (a : ndarray3) (bx : box) : ndarray3 :=
  let '(b, n, m) := shape3 a in
  let '(r0, nr) := slice_indices (fst bx) n in
  let '(c0, nc) := slice_indices (snd bx) m in
  tab3 b nr nc (fun c i j => get3 a c (r0 + i) (c0 + j)).

(** [a[:, box[0], box[1]] += src]: the source is broadcast to the
    selected window, which must have exactly the broadcast shape. *)
Definition iadd_box (a : ndarray3) (bx : box) (src : ndarray3)
  : result ndarray3 :=
  let '(b, n, m) := shape3 a in
  let '(r0, nr) := slice_indices (fst bx) n in
  let '(c0, nc) := slice_indices (snd bx) m in
  let '(sb, sn, sm) := shape3 src in
  _ ← raise_unless (fits sb b && fits sn nr && fits sm nc) ValueError;
  Ok (tab3 b n m (fun c i j =>
    if (r0 <=? i)%nat && (i <? r0 + nr)%nat && (c0 <=? j)%nat && (j <? c0 + nc)%nat
    then get3 a c i j +! get3 src (bidx sb c) (bidx sn (i - r0)) (bidx sm (j - c0))
    else get3 a c i j)).

(** [sed[:, None, None] * morph[None, :, :]]: shapes (L,1,1) and
    (1,R,C) always broadcast, to (L,R,C). *)
Definition outer (sed : list T) (morph : ndarray2) : ndarray3 :=
  let '(mr, mc) := shape2 morph in
  tab3 (length sed) mr mc (fun c i j => get1 sed c *! get2 morph i j).

(** Elementwise binary operation with broadcasting. *)
Definition np_binop (op : T -> T -> T) (a b : ndarray3) : result ndarray3 :=
  let '(ab, an, am) := shape3 a in
  let '(bb, bn, bm) := shape3 b in
  db ← of_option (bdim ab bb) ValueError;
  dn ← of_option (bdim an bn) ValueError;
  dm ← of_option (bdim am bm) ValueError;
  Ok (tab3 db dn dm (fun c i j =>
    op (get3 a (bidx ab c) (bidx an i) (bidx am j))
       (get3 b (bidx bb c) (bidx bn i) (bidx bm j)))).

(** [w * a] for a scalar [w]. *)
Definition np_scale (w : T) (a : ndarray3) : ndarray3 :=
  let '(b, n, m) := shape3 a in
  tab3 b n m (fun c i j => w *! get3 a c i j).

(** Sum of [f 0 .. f (n-1)], accumulated from zero in index order. numpy
    does not fix the order in which [einsum] and [sum] add; in exact
    arithmetic every order gives this sum. *)
Definition sum_upto (n : nat) (f : nat -> T) : T :=
  fold_left (fun acc i => acc +! f i) (seq 0 n) num_zero.

(** [np.sum] of a vector. *)
Definition np_sum (v : list T) : T := sum_upto (length v) (get1 v).

(** [np.einsum("...jk,jk", g, m)]: contract the two trailing axes of
    [g] against [m]. numpy iterates the operands with broadcasting, so an
    axis of length 1 is stretched to the length the other operand gives
    its label; any other difference of lengths raises. *)
Definition einsum_jk (g : ndarray3) (m : ndarray2) : result (list T) :=
  let '(b, gn, gm) := shape3 g in
  let '(mr, mc) := shape2 m in
  dj ← of_option (bdim gn mr) ValueError;
  dk ← of_option (bdim gm mc) ValueError;
  Ok (tab1 b (fun c =>
    sum_upto dj (fun j => sum_upto dk (fun k =>
      get3 g c (bidx gn j) (bidx gm k) *! get2 m (bidx mr j) (bidx mc k))))).

(** [np.einsum("i,i...", v, g)]: contract the leading axis of [g]
    against [v]. *)
Definition einsum_i (v : list T) (g : ndarray3) : result ndarray2 :=
  let '(b, gn, gm) := shape3 g in
  di ← of_option (bdim (length v) b) ValueError;
  Ok (tab2 gn gm (fun j k =>
    sum_upto di (fun i => get1 v (bidx (length v) i) *! get3 g (bidx b i) j k))).

End Arrays.

Arguments ndarray3 T : clear implicits.
Arguments ndarray2 T : clear implicits.
Arguments get1 : simpl never.
Arguments get2 : simpl never.
Arguments get3 : simpl never.
Arguments tab1 : simpl never.
Arguments tab2 : simpl never.
Arguments tab3 : simpl never.
Arguments sum_upto : simpl never.

(** ** The notebook's direct-gradient functions *)

Section Direct.
Context {T : Type} `{Num T}.

#[local] Abbreviation image := (ndarray3 T).
#[local] Abbreviation morphology := (ndarray2 T).

(** [box = (slice(y-1, y+2), slice(x-1, x+2))] *)
Definition center_box (center : Z * Z) : box :=
  let '(y, x) := center in
  (Slice (y - 1) (y + 2), Slice (x - 1) (x + 2)).

Definition get_component_model (sed : list T) (morph : morphology)
    (center : Z * Z) : image * box :=
  let '(y, x) := center in
  let box := (Slice (y - 1) (y + 2), Slice (x - 1) (x + 2)) in
  (outer sed morph, box).

Definition grad_get_component_model (chain_grad model : image)
    (sed : list T) (morph : morphology) (center : Z * Z)
  : result (list T * morphology) :=
  let '(y, x) := center in
  let box := (Slice (y - 1) (y + 2), Slice (x - 1) (x + 2)) in
  let _chain_grad := getitem_box chain_grad box in
  sed_grad ← einsum_jk _chain_grad morph;
  morph_grad ← einsum_i sed _chain_grad;
  Ok (sed_grad, morph_grad).

(** The local variables of [get_full_model]'s loop. [box] is bound by
    the loop body only. *)
Record render_locals : Type := RenderLocals {
  rl_model : image;
  rl_boxes : list box;
  rl_box : option box
}.

Definition get_full_model_body (seds : list (list T))
    (morphs : list morphology) (centers : list (Z * Z))
    (st : render_locals) (k : nat) : result render_locals :=
  sed ← index seds k;
  morph ← index morphs k;
  center ← index centers k;
  let '(_model, box) := get_component_model sed morph center in
  model ← iadd_box (rl_model st) box _model;
  Ok (RenderLocals model (rl_boxes st ++ [box]) (Some box)).

Definition get_full_model_loop (seds : list (list T))
    (morphs : list morphology) (centers : list (Z * Z))
    (shape : nat * nat * nat) : result render_locals :=
  foldM (get_full_model_body seds morphs centers)
        (RenderLocals (np_zeros shape) [] None)
        (seq 0 (length seds)).

(** The function ends with [return model, box]: the box of the last
    iteration, not the list [boxes]. *)
Definition get_full_model (seds : list (list T))
    (morphs : list morphology) (centers : list (Z * Z))
    (shape : nat * nat * nat) : result (image * box) :=
  st ← get_full_model_loop seds morphs centers shape;
  box ← of_option (rl_box st) UnboundLocalError;
  Ok (rl_model st, box).

Definition grad_get_full_model_body (chain_grad model : image)
    (centers : list (Z * Z)) (seds : list (list T))
    (morphs : list morphology)
    (acc : list (list T) * list morphology) (k : nat)
  : result (list (list T) * list morphology) :=
  sed ← index seds k;
  morph ← index morphs k;
  center ← index centers k;
  grads ← grad_get_component_model chain_grad model sed morph center;
  Ok (fst acc ++ [fst grads], snd acc ++ [snd grads]).

(** [np.array(sed_grads), np.array(morph_grads)] stack the
    per-component results along a new leading axis; they are kept as the
    lists of those results. *)
Definition grad_get_full_model (chain_grad model : image)
    (centers : list (Z * Z)) (seds : list (list T))
    (morphs : list morphology)
  : result (list (list T) * list morphology) :=
  foldM (grad_get_full_model_body chain_grad model centers seds morphs)
        ([], []) (seq 0 (length centers)).

(** [weights*(model-data)] *)
Definition grad_logL (data model : image) (weights : T) : result image :=
  diff ← np_binop num_sub model data;
  Ok (np_scale weights diff).

Definition calculate_gradients_direct (images : image)
    (centers : list (Z * Z)) (seds : list (list T))
    (morphs : list morphology)
  : result (list (list T) * list morphology) :=
  '(model, boxes) ← get_full_model seds morphs centers (shape3 images);
  gL ← grad_logL images model num_one;
  grad_get_full_model gL model centers seds morphs.

End Direct.


(** ** State and exceptions together *)

(** A computation over a state [S] that may raise: the state reached is
    kept in both cases, as a Python exception keeps the writes done
    before it. *)
Definition stateE (S A : Type) : Type := S -> result A * S.

#[export] Instance stateE_ret {S} : MRet (stateE S) := fun A a s => (Ok a, s).
#[export] Instance stateE_bind {S} : MBind (stateE S) := fun A B f m s =>
  match m s with
  | (Ok a, s') => f a s'
  | (Err e, s') => (Err e, s')
  end.

Definition lift {S A} (r : result A) : stateE S A := fun s => (r, s).

Fixpoint for_each {S A St : Type} (body : St -> A -> stateE S St) (st : St)
    (l : list A) : stateE S St :=
  match l with
  | [] => mret st
  | a :: l' => st' ← body st a; for_each body st' l'
  end.

(** ** The pipeline over a store of array objects *)

(** Here the arguments of the notebook's functions are references to
    objects in a store, [np.zeros] allocates, and [+=] on a slice writes
    into the object it was taken from. The arrays a call only reads
    ([seds[k]], the sliced gradient) and the temporaries it returns are
    passed by value. *)
Module Store.
Section Store.
Context {T : Type} `{Num T}.

Inductive object : Type :=
| ObjImage (a : ndarray3 T)
| ObjSeds (l : list (list T))
| ObjMorphs (l : list (ndarray2 T))
| ObjCenters (l : list (Z * Z)).

#[local] Abbreviation loc := positive.
#[local] Abbreviation M := (stateE (gmap positive object)).

Definition alloc (o : object) : M loc := fun h =>
  let l := fresh (dom h) in (Ok l, <[l := o]> h).

(** A reference that designates no object does not arise in Python; the
    store reads it as an object of no kind. *)
Definition load (l : loc) : M object := fun h =>
  (of_option (h !! l) TypeError, h).

Definition store (l : loc) (o : object) : M unit := fun h =>
  (Ok tt, <[l := o]> h).

(** The typed reads raise on an object of another kind. *)
Definition load_image (l : loc) : M (ndarray3 T) :=
  o ← load l;
  match o with ObjImage a => mret a | _ => lift (Err TypeError) end.

Definition load_seds (l : loc) : M (list (list T)) :=
  o ← load l;
  match o with ObjSeds v => mret v | _ => lift (Err TypeError) end.

Definition load_morphs (l : loc) : M (list (ndarray2 T)) :=
  o ← load l;
  match o with ObjMorphs v => mret v | _ => lift (Err TypeError) end.

Definition load_centers (l : loc) : M (list (Z * Z)) :=
  o ← load l;
  match o with ObjCenters v => mret v | _ => lift (Err TypeError) end.

(** [seds[k]], [morphs[k]], [centers[k]] *)
Definition getitem_seds (l : loc) (k : nat) : M (list T) :=
  v ← load_seds l; lift (index v k).
Definition getitem_morphs (l : loc) (k : nat) : M (ndarray2 T) :=
  v ← load_morphs l; lift (index v k).
Definition getitem_centers (l : loc) (k : nat) : M (Z * Z) :=
  v ← load_centers l; lift (index v k).

(** [model[:, box[0], box[1]] += src], writing into the object at [l]. *)
Definition iadd_box_at (l : loc) (bx : box) (src : ndarray3 T) : M unit :=
  a ← load_image l;
  a' ← lift (iadd_box a bx src);
  store l (ObjImage a').

Definition get_full_model_body (seds morphs centers model : loc)
    (st : list box * option box) (k : nat) : M (list box * option box) :=
  sed ← getitem_seds seds k;
  morph ← getitem_morphs morphs k;
  center ← getitem_centers centers k;
  let '(_model, box) := get_component_model sed morph center in
  _ ← iadd_box_at model box _model;
  mret (fst st ++ [box], Some box).

Definition get_full_model (seds morphs centers : loc)
    (shape : nat * nat * nat) : M (loc * box) :=
  model ← alloc (ObjImage (np_zeros shape));
  v ← load_seds seds;
  st ← for_each (get_full_model_body seds morphs centers model)
                ([], None) (seq 0 (length v));
  box ← lift (of_option (snd st) UnboundLocalError);
  mret (model, box).

Definition grad_get_full_model_body (chain_grad model centers seds morphs : loc)
    (acc : list (list T) * list (ndarray2 T)) (k : nat)
  : M (list (list T) * list (ndarray2 T)) :=
  sed ← getitem_seds seds k;
  morph ← getitem_morphs morphs k;
  center ← getitem_centers centers k;
  g ← load_image chain_grad;
  m ← load_image model;
  grads ← lift (grad_get_component_model g m sed morph center);
  mret (fst acc ++ [fst grads], snd acc ++ [snd grads]).

Definition grad_get_full_model (chain_grad model centers seds morphs : loc)
  : M (list (list T) * list (ndarray2 T)) :=
  v ← load_centers centers;
  for_each (grad_get_full_model_body chain_grad model centers seds morphs)
           ([], []) (seq 0 (length v)).

(** The result of [weights*(model-data)] is a new array. *)
Definition grad_logL (data model : loc) (weights : T) : M loc :=
  d ← load_image data;
  m ← load_image model;
  g ← lift (grad_logL d m weights);
  alloc (ObjImage g).

Definition calculate_gradients_direct (images centers seds morphs : loc)
  : M (list (list T) * list (ndarray2 T)) :=
  img ← load_image images;
  '(model, boxes) ← get_full_model seds morphs centers (shape3 img);
  gL ← grad_logL images model num_one;
  grad_get_full_model gL model centers seds morphs.

End Store.
End Store.

(** ** The scene builder *)

(** [np.random] is outside the repository. A generator state [G] gives
    the draws; of [randint] only its contract is kept: the value lies in
    [low, high). *)
Class RandomState (T G : Type) := {
  rng_randint : Z -> Z -> G -> Z * G;
  rng_rand : G -> T * G;
  rng_randint_range : forall lo hi g,
    (lo < hi)%Z -> (lo <= fst (rng_randint lo hi g) < hi)%Z
}.

Section Scene.
Context {T : Type} `{Num T} {G : Type} `{!RandomState T G}.

(** [np.random.randint(low, high)] raises when the range is empty. *)
Definition np_random_randint (low high : Z) : stateE G Z := fun g =>
  if (low <? high)%Z
  then let '(v, g') := rng_randint low high g in (Ok v, g')
  else (Err ValueError, g).

(** [np.random.rand(n)] *)
Fixpoint np_random_rand (n : nat) : stateE G (list T) :=
  match n with
  | O => mret []
  | S n' => fun g =>
      let '(v, g1) := rng_rand (T:=T) g in
      let '(r, g2) := np_random_rand n' g1 in
      (match r with Ok vs => Ok (v :: vs) | Err e => Err e end, g2)
  end.

(** [np.arange(9).reshape(3, 3)] *)
Definition arange9 : ndarray2 T :=
  tab2 3 3 (fun i j => num_of_Z (Z.of_nat (3 * i + j))).

(** One entry of [np.zeros((K, 3, 3))] after [morphs[:, 1, 1] = 1]. *)
Definition unit_morph : ndarray2 T :=
  tab2 3 3 (fun i j => if (i =? 1)%nat && (j =? 1)%nat then num_one else num_zero).

(** [morphs[k][None, :, :] * sed[:, None, None]] *)
Definition outer_rev (morph : ndarray2 T) (sed : list T) : ndarray3 T :=
  let '(mr, mc) := shape2 morph in
  tab3 (length sed) mr mc (fun c i j => get2 morph i j *! get1 sed c).

Record scene : Type := Scene {
  sc_images : ndarray3 T;
  sc_centers : list (Z * Z);
  sc_seds : list (list T);
  sc_morphs : list (ndarray2 T)
}.

(** One iteration of the second loop. [k] comes from [range(K)] and
    [centers], [seds] and [morphs] have K entries, so the reads and
    writes by index are in range. *)
Definition build_scene_body (B : nat) (st : scene) (k : nat)
  : stateE G scene :=
  let images := sc_images st in
  cy ← np_random_randint 4 (Z.of_nat (snd (fst (shape3 images))) - 4);
  cx ← np_random_randint 4 (Z.of_nat (snd (shape3 images)) - 4);
  let center := (cy, cx) in
  sed ← np_random_rand B;
  let sed := map (fun s => s *! (num_of_Z 500 /! np_sum sed)) sed in
  let centers := <[k := center]> (sc_centers st) in
  let '(y, x) := center in
  morph ← lift (index (sc_morphs st) k);
  images ← lift (iadd_box images (Slice (y - 1) (y + 2), Slice (x - 1) (x + 2))
                          (outer_rev morph sed));
  let seds := <[k := sed]> (sc_seds st) in
  mret (Scene images centers seds (sc_morphs st)).

(** The [if show:] block: [img2rgb] clamps a copy of the image and
    matplotlib draws it. It binds none of the builder's variables and
    writes to none of its arrays; what it draws, and whether it raises
    (matplotlib refuses some channel counts), is left to this function. *)
Variable show_image : ndarray3 T -> option (Z * Z) -> result unit.

(** [build_scene(shape, K, figsize, show)] *)
Definition build_scene (shape : nat * nat * nat) (K : nat)
    (figsize : option (Z * Z)) (show : bool)
  : stateE G (ndarray3 T * list (Z * Z) * list (list T) * list (ndarray2 T)) :=
  let '(B, N, M) := shape in
  let images := np_zeros shape in
  let centers := repeat (0%Z, 0%Z) K in
  let seds := repeat (repeat num_zero B) K in
  let morphs := repeat unit_morph K in
  let morphs := fold_left (fun ms k => <[k := arange9]> ms) (seq 0 K) morphs in
  st ← for_each (build_scene_body B) (Scene images centers seds morphs) (seq 0 K);
  _ ← lift (if show then show_image (sc_images st) figsize else Ok tt);
  mret (sc_images st, sc_centers st, sc_seds st, sc_morphs st).

End Scene.

Arguments scene T : clear implicits.

(** A small linear congruential generator, to run the builder. *)
Definition lcg_next (g : Z) : Z := (g * 1103515245 + 12345) mod 2147483648.

#[export, refine] Instance lcg_random {T} `{Num T} : RandomState T Z := {
  rng_randint lo hi g := (lo + lcg_next g mod (hi - lo), lcg_next g);
  rng_rand g := (num_of_Z (lcg_next g mod 1000) /! num_of_Z 1000, lcg_next g)
}.
Proof.
  intros lo hi g Hlt. cbn.
  pose proof (Z.mod_pos_bound (lcg_next g) (hi - lo)). lia.
Defined.


(** ** The forward pass written for autograd *)

(** A slice whose bounds may be [None]; [slice(None)] selects a whole
    axis. *)
Record pslice : Set := PSlice { pstart : option Z; pstop : option Z }.

Definition slice_None : pslice := PSlice None None.

Definition of_slice (s : slice) : pslice :=
  PSlice (Some (start s)) (Some (stop s)).

Definition pslice_indices (s : pslice) (n : nat) : nat * nat :=
  let a := match pstart s with Some v => clip_bound v n | None => 0%Z end in
  let b := match pstop s with Some v => clip_bound v n | None => Z.of_nat n end in
  (Z.to_nat a, Z.to_nat (b - a)).

(** [(slice(None),) + box] *)
Definition with_channels (bx : box) : pslice * pslice * pslice :=
  (slice_None, of_slice (fst bx), of_slice (snd bx)).

Section Autograd.
Context {T : Type} `{Num T}.

(** [a[slices]] for a tuple of three slices. *)
Definition getitem_slices (a : ndarray3 T) (slices : pslice * pslice * pslice)
  : ndarray3 T :=
  let '(b, n, m) := shape3 a in
  let '(s0, s1, s2) := slices in
  let '(ch0, nch) := pslice_indices s0 b in
  let '(r0, nr) := pslice_indices s1 n in
  let '(c0, nc) := pslice_indices s2 m in
  tab3 nch nr nc (fun c i j => get3 a (ch0 + c) (r0 + i) (c0 + j)).

(** [destination[slices] += source; return destination] *)
Definition add_slice (destination source : ndarray3 T)
    (slices : pslice * pslice * pslice) : result (ndarray3 T) :=
  let '(b, n, m) := shape3 destination in
  let '(s0, s1, s2) := slices in
  let '(ch0, nch) := pslice_indices s0 b in
  let '(r0, nr) := pslice_indices s1 n in
  let '(c0, nc) := pslice_indices s2 m in
  let '(sb, sn, sm) := shape3 source in
  _ ← raise_unless (fits sb nch && fits sn nr && fits sm nc) ValueError;
  Ok (tab3 b n m (fun c i j =>
    if (ch0 <=? c)%nat && (c <? ch0 + nch)%nat
       && (r0 <=? i)%nat && (i <? r0 + nr)%nat
       && (c0 <=? j)%nat && (j <? c0 + nc)%nat
    then get3 destination c i j
         +! get3 source (bidx sb (c - ch0)) (bidx sn (i - r0)) (bidx sm (j - c0))
    else get3 destination c i j)).

(** The two adjoints registered with [defvjp]: each takes the result and
    the arguments of the call and returns the map on the incoming
    gradient. *)
Definition grad_add_slice_dest (result destination source : ndarray3 T)
    (slices : pslice * pslice * pslice) : ndarray3 T -> ndarray3 T :=
  fun grad_chain => grad_chain.

Definition grad_add_slice_src (result destination source : ndarray3 T)
    (slices : pslice * pslice * pslice) : ndarray3 T -> ndarray3 T :=
  fun grad_chain => getitem_slices grad_chain slices.

Record autograd_locals : Type := AutogradLocals {
  al_model : ndarray3 T;
  al_boxes : list (pslice * pslice * pslice);
  al_box : option (pslice * pslice * pslice)
}.

Definition get_full_model_autograd_body (seds : list (list T))
    (morphs : list (ndarray2 T)) (centers : list (Z * Z))
    (st : autograd_locals) (k : nat) : result autograd_locals :=
  sed ← index seds k;
  morph ← index morphs k;
  center ← index centers k;
  let '(_model, box) := get_component_model sed morph center in
  let box := with_channels box in
  model ← add_slice (al_model st) _model box;
  Ok (AutogradLocals model (al_boxes st ++ [box]) (Some box)).

(** Like [get_full_model], it ends with [return model, box]. *)
Definition get_full_model_autograd (seds : list (list T))
    (morphs : list (ndarray2 T)) (centers : list (Z * Z))
    (shape : nat * nat * nat)
  : result (ndarray3 T * (pslice * pslice * pslice)) :=
  st ← foldM (get_full_model_autograd_body seds morphs centers)
             (AutogradLocals (np_zeros shape) [] None)
             (seq 0 (length seds));
  box ← of_option (al_box st) UnboundLocalError;
  Ok (al_model st, box).

End Autograd.

(** ** The log-likelihood *)

(** The literal [0.5]. *)
Class NumHalf (T : Type) := { num_half : T }.

#[export] Instance float_NumHalf : NumHalf float := { num_half := 0.5%float }.

Section LogL.
Context {T : Type} `{Num T} `{NumHalf T}.

(** [a**2]: numpy squares by multiplying the element by itself. *)
Definition np_square (a : ndarray3 T) : ndarray3 T :=
  let '(b, n, m) := shape3 a in
  tab3 b n m (fun c i j => get3 a c i j *! get3 a c i j).

(** [0.5*weights*(data-model)**2] *)
Definition logL (data model : ndarray3 T) (weights : T) : result (ndarray3 T) :=
  diff ← np_binop num_sub data model;
  Ok (np_scale (num_half *! weights) (np_square diff)).

(** [np.sum(a)] of a whole array, accumulated like [sum_upto]. *)
Definition np_sum3 (a : ndarray3 T) : T :=
  let '(b, n, m) := shape3 a in
  sum_upto b (fun c => sum_upto n (fun i => sum_upto m (fun j => get3 a c i j))).

(** The value of the loss. The function reads [centers] from the
    notebook's globals; it is the first argument here. [weights] takes its
    default. *)
Definition loss_autograd (centers : list (Z * Z)) (seds : list (list T))
    (morphs : list (ndarray2 T)) (image : ndarray3 T) : result T :=
  r ← get_full_model_autograd seds morphs centers (shape3 image);
  let '(model, boxes) := r in
  l ← logL image model num_one;
  Ok (np_sum3 l).

End LogL.

(** ** Display *)

(** Comparison of two elements, and the cast [astype(np.uint8)] of an
    element that lies between 0 and 255. *)
Class NumOrd (T : Type) := {
  num_ltb : T -> T -> bool;
  num_to_uint8 : T -> Z
}.

#[export] Instance Z_NumOrd : NumOrd Z := {
  num_ltb := Z.ltb;
  num_to_uint8 := fun z => z mod 256
}.

(** The integer part of a float, rounded toward zero; 0 for NaN and the
    infinities, whose cast C leaves undefined. *)
Definition trunc_float (x : float) : Z :=
  match Prim2SF x with
  | S754_finite s m e =>
      let a := if (0 <=? e)%Z then Z.shiftl (Zpos m) e
               else Z.shiftr (Zpos m) (- e) in
      if s then (- a)%Z else a
  | _ => 0%Z
  end.

#[export] Instance float_NumOrd : NumOrd float := {
  num_ltb := PrimFloat.ltb;
  num_to_uint8 := fun x => trunc_float x mod 256
}.

Section Display.
Context {T : Type} `{Num T} `{NumOrd T}.

(** [a[mask] = v] where [mask] is [test] applied to [a] itself. *)
Definition np_where_set (test : T -> bool) (v : T) (a : ndarray3 T)
  : ndarray3 T :=
  let '(b, n, m) := shape3 a in
  tab3 b n m (fun c i j => if test (get3 a c i j) then v else get3 a c i j).

(** [a.astype(np.uint8)] *)
Definition astype_uint8 (a : ndarray3 T) : ndarray3 Z :=
  let '(b, n, m) := shape3 a in
  tab3 b n m (fun c i j => num_to_uint8 (get3 a c i j)).

(** [np.transpose(a, axes=(1,2,0))] *)
Definition transpose_120 (a : ndarray3 Z) : ndarray3 Z :=
  let '(b, n, m) := shape3 a in
  tab3 n m b (fun i j c => get3 a c i j).

Definition img2rgb (image : ndarray3 T) : ndarray3 Z :=
  let rgb := image in
  let rgb := np_where_set (fun x => num_ltb (num_of_Z 255) x) (num_of_Z 255) rgb in
  let rgb := np_where_set (fun x => num_ltb x (num_of_Z 0)) (num_of_Z 0) rgb in
  let rgb := astype_uint8 rgb in
  let rgb := transpose_120 rgb in
  rgb.

End Display.

(** ** Exact rationals *)

#[export] Instance Qc_Num : Num Qc := {
  num_zero := 0%Qc; num_one := 1%Qc;
  num_add := Qcplus; num_sub := Qcminus; num_mul := Qcmult; num_div := Qcdiv;
  num_of_Z := fun z => Q2Qc (inject_Z z)
}.

#[export] Instance Qc_NumHalf : NumHalf Qc := { num_half := Q2Qc (1 # 2) }.

(** ** Vocabulary of the statements *)

Section Vocabulary.
Context {T : Type} `{Num T}.

(** A light source: the three arguments the notebook passes side by
    side in [seds], [morphs] and [centers]. *)
Record component : Type := Component {
  sed : list T;
  morph : ndarray2 T;
  center : Z * Z
}.

Definition seds_of (comps : list component) := map sed comps.
Definition morphs_of (comps : list component) := map morph comps.
Definition centers_of (comps : list component) := map center comps.

(** The 3-wide window around coordinate [v] lies inside a dimension of
    length [n]. *)
Definition inside (v : Z) (n : nat) : Prop :=
  (1 <= v)%Z /\ (v + 2 <= Z.of_nat n)%Z.

(** A component fits an image shape: one sed entry per channel, a 3x3
    morphology, and a window inside the image. *)
Definition component_ok (shape : nat * nat * nat) (c : component) : Prop :=
  length (sed c) = fst (fst shape) /\
  shape2 (morph c) = (3%nat, 3%nat) /\
  inside (fst (center c)) (snd (fst shape)) /\
  inside (snd (center c)) (snd shape).

(** The window around [v] is neither inside the dimension nor, for a
    negative [v], wholly inside it after Python has counted the bounds
    from the end: the slice selects fewer than three indices. *)
Definition cut_short (v : Z) (n : nat) : Prop :=
  ~ inside v n /\ ~ ((v <= -3)%Z /\ (1 <= v + Z.of_nat n)%Z).

(** A component numpy refuses to add into an image of this shape: its
    sed has neither one entry per channel nor a single entry, or a side
    of its window is cut short. *)
Definition rejected (shape : nat * nat * nat) (c : component) : Prop :=
  (length (sed c) <> fst (fst shape) /\ length (sed c) <> 1%nat) \/
  cut_short (fst (center c)) (snd (fst shape)) \/
  cut_short (snd (center c)) (snd shape).

(** Index in the image of offset [i] of the window around [v]. *)
Definition window_index (v : Z) (i : nat) : nat := (Z.to_nat (v - 1) + i)%nat.


(** Pixel [(i, j)] lies in the window of component [c]. *)
Definition covers (c : component) (i j : nat) : bool :=
  (Z.to_nat (fst (center c) - 1) <=? i)%nat
  && (i <? Z.to_nat (fst (center c) - 1) + 3)%nat
  && (Z.to_nat (snd (center c) - 1) <=? j)%nat
  && (j <? Z.to_nat (snd (center c) - 1) + 3)%nat.

(** What component [c] adds to pixel [(ch, i, j)] of its window. *)
Definition contribution (c : component) (ch i j : nat) : T :=
  get1 (sed c) ch
  *! get2 (morph c) (i - Z.to_nat (fst (center c) - 1))
                    (j - Z.to_nat (snd (center c) - 1)).

(** The value of a pixel after the components have been added, in
    order, to a pixel that held [v]. *)
Definition pixel_after (comps : list component) (ch i j : nat) (v : T) : T :=
  fold_left (fun v c => if covers c i j then v +! contribution c ch i j else v)
            comps v.

(** The windows of two components share no pixel: their centers are
    three or more rows, or three or more columns, apart. *)
Definition apart (a b : component) : Prop :=
  (3 <= Z.abs (fst (center a) - fst (center b)))%Z \/
  (3 <= Z.abs (snd (center a) - snd (center b)))%Z.

(** The data of an array is the table its shape announces. *)
Definition wf3 (a : ndarray3 T) : Prop :=
  a = tab3 (fst (fst (shape3 a))) (snd (fst (shape3 a))) (snd (shape3 a)) (get3 a).

(** One iteration of [get_full_model]'s loop, on the component itself. *)
Definition render_component (st : render_locals) (c : component)
  : result render_locals :=
  let '(_model, box) := get_component_model (sed c) (morph c) (center c) in
  model ← iadd_box (rl_model st) box _model;
  Ok (RenderLocals model (rl_boxes st ++ [box]) (Some box)).

(** One iteration of [grad_get_full_model]'s loop, on the component. *)
Definition grad_component (chain_grad model : ndarray3 T)
    (acc : list (list T) * list (ndarray2 T)) (c : component)
  : result (list (list T) * list (ndarray2 T)) :=
  grads ← grad_get_component_model chain_grad model (sed c) (morph c) (center c);
  Ok (fst acc ++ [fst grads], snd acc ++ [snd grads]).

(** What holds of the builder's variables before iteration [k]. *)
Definition scene_inv (shape : nat * nat * nat) (K k : nat) (st : scene T) : Prop :=
  shape3 (sc_images st) = shape /\
  length (sc_centers st) = K /\
  length (sc_morphs st) = K /\
  Forall (fun m => shape2 m = (3%nat, 3%nat)) (sc_morphs st) /\
  forall i, (i < k)%nat -> exists cy cx,
    sc_centers st !! i = Some (cy, cx) /\
    (4 <= cy <= Z.of_nat (snd (fst shape)) - 5)%Z /\
    (4 <= cx <= Z.of_nat (snd shape) - 5)%Z.

End Vocabulary.

Arguments component T : clear implicits.

(** ** Vocabulary of the further statements *)

Section Vocabulary2.
Context {T : Type} `{Num T}.

(** The elements form a commutative ring, as exact numbers do; the
    opposite of [x] is [0 - x]. *)
Class NumRing : Prop := {
  num_ring : ring_theory num_zero num_one num_add num_mul num_sub
                         (fun x => num_zero -! x) (@eq T)
}.

(** What the scene builder adds to pixel [(ch, i, j)] for component
    [c]: the product is taken morph first. *)
Definition contribution_rev (c : component T) (ch i j : nat) : T :=
  get2 (morph c) (i - Z.to_nat (fst (center c) - 1))
                 (j - Z.to_nat (snd (center c) - 1))
  *! get1 (sed c) ch.

Definition pixel_after_rev (comps : list (component T)) (ch i j : nat) (v : T) : T :=
  fold_left (fun v c => if covers c i j then v +! contribution_rev c ch i j else v)
            comps v.

(** What holds of the builder's variables before iteration [k], where
    [built] are the components placed so far. *)
Definition scene_built (B N M K k : nat) (st : scene T)
    (built : list (component T)) : Prop :=
  shape3 (sc_images st) = (B, N, M) /\
  wf3 (sc_images st) /\
  length (sc_centers st) = K /\
  length (sc_seds st) = K /\
  sc_morphs st = repeat arange9 K /\
  length built = k /\
  Forall (component_ok (B, N, M)) built /\
  (forall i c, built !! i = Some c ->
     sc_seds st !! i = Some (sed c) /\
     sc_centers st !! i = Some (center c) /\
     morph c = arange9) /\
  (forall ch i j, (ch < B)%nat -> (i < N)%nat -> (j < M)%nat ->
     get3 (sc_images st) ch i j = pixel_after_rev built ch i j num_zero).

(** Sum of the products of two arrays over the shape of the first. *)
Definition inner3 (a g : ndarray3 T) : T :=
  let '(b, n, m) := shape3 a in
  sum_upto b (fun c => sum_upto n (fun i => sum_upto m (fun j =>
    get3 a c i j *! get3 g c i j))).

End Vocabulary2.

Arguments NumRing T {_}.

#[export] Instance Z_NumRing : NumRing Z.
Proof. split. split; cbn; intros; lia. Qed.

#[export] Instance Qc_NumRing : NumRing Qc.
Proof. split. split; cbn; intros; ring. Qed.

(** ** Sample inputs *)

(** Two components of a one-channel 7x7 image, with separate windows. *)
Definition first_component : component Z :=
  Component [2] (NdArray2 (3, 3)%nat [[0; 1; 0]; [1; 4; 1]; [0; 1; 0]]) (2, 2).

Definition second_component : component Z :=
  Component [3] (NdArray2 (3, 3)%nat [[1; 0; 0]; [0; 1; 0]; [0; 0; 1]]) (5, 3).

Definition two_components : list (component Z) :=
  [first_component; second_component].

(** A data image of the same shape. *)
Definition sample_data : ndarray3 Z := tab3 1 7 7 (fun c i j => Z.of_nat (i + j)).

(** A store holding the data image and the three arguments that
    describe [two_components]. *)
Definition sample_store : gmap positive (Store.object (T:=Z)) :=
  <[1%positive := Store.ObjImage sample_data]>
  (<[2%positive := Store.ObjCenters (centers_of two_components)]>
  (<[3%positive := Store.ObjSeds (seds_of two_components)]>
  (<[4%positive := Store.ObjMorphs (morphs_of two_components)]> ∅))).

(** * Properties *)

(** ** Running a bind *)

Section Bind.
Context {S A B : Type}.

Lemma stateE_bind_ok (m : stateE S A) (f : A -> stateE S B) s a s' :
  m s = (Ok a, s') -> (m ≫= f) s = f a s'.
Proof. intros E. unfold mbind, stateE_bind. by rewrite E. Qed.

Lemma stateE_bind_run (m : stateE S A) (f : A -> stateE S B) (s : S) :
  (m ≫= f) s = match m s with
               | (Ok a, s') => f a s'
               | (Err e, s') => (Err e, s')
               end.
Proof. done. Qed.

End Bind.

(** ** Facts about the array primitives *)

Section ArrayFacts.
Context {T : Type} `{Num T}.

Lemma length_tab1 n (f : nat -> T) : length (tab1 n f) = n.
Proof. unfold tab1. by rewrite length_map, length_seq. Qed.

Lemma nth_map_seq {A} (f : nat -> A) n i d :
  (i < n)%nat -> nth i (map f (seq 0 n)) d = f i.
Proof.
  intros Hi. rewrite (nth_indep _ d (f 0%nat)) by (by rewrite length_map, length_seq).
  rewrite (map_nth f (seq 0 n) 0%nat i). by rewrite seq_nth.
Qed.

Lemma get1_tab1 n (f : nat -> T) i : (i < n)%nat -> get1 (tab1 n f) i = f i.
Proof. apply nth_map_seq. Qed.

Lemma get2_tab2 n m (f : nat -> nat -> T) i j :
  (i < n)%nat -> (j < m)%nat -> get2 (tab2 n m f) i j = f i j.
Proof.
  intros Hi Hj. unfold get2, tab2, tab1; cbn.
  rewrite nth_map_seq by done. by apply nth_map_seq.
Qed.

Lemma get3_tab3 b n m (f : nat -> nat -> nat -> T) c i j :
  (c < b)%nat -> (i < n)%nat -> (j < m)%nat ->
  get3 (tab3 b n m f) c i j = f c i j.
Proof.
  intros Hc Hi Hj. unfold get3, tab3, tab2, tab1; cbn.
  rewrite nth_map_seq by done. rewrite nth_map_seq by done.
  by apply nth_map_seq.
Qed.

Lemma shape3_tab3 b n m (f : nat -> nat -> nat -> T) :
  shape3 (tab3 b n m f) = (b, n, m).
Proof. done. Qed.

Lemma bidx_lt d i : (i < d)%nat -> bidx d i = i.
Proof. unfold bidx. destruct (Nat.eqb_spec d 1); lia. Qed.

Lemma bdim_same d : bdim d d = Some d.
Proof. unfold bdim. by rewrite Nat.eqb_refl. Qed.

Lemma fits_same d : fits d d = true.
Proof. unfold fits. by rewrite Nat.eqb_refl. Qed.

Lemma shape3_np_zeros sh : shape3 (np_zeros (T:=T) sh) = sh.
Proof. by destruct sh as [[b n] m]. Qed.

Lemma get3_np_zeros sh c i j : get3 (np_zeros (T:=T) sh) c i j = num_zero.
Proof.
  destruct sh as [[b n] m]. unfold np_zeros.
  destruct (decide (c < b)%nat) as [Hc|Hc];
    [destruct (decide (i < n)%nat) as [Hi|Hi];
      [destruct (decide (j < m)%nat) as [Hj|Hj]|]|].
  - by rewrite get3_tab3.
  - unfold get3, tab3, tab2; cbn. rewrite nth_map_seq by done.
    rewrite nth_map_seq by done. apply nth_overflow.
    rewrite length_tab1. lia.
  - unfold get3, tab3, tab2; cbn. rewrite nth_map_seq by done.
    rewrite (nth_overflow (map _ _)) by (rewrite length_map, length_seq; lia).
    by destruct j.
  - unfold get3, tab3, tab2; cbn.
    rewrite (nth_overflow (map _ _)) by (rewrite length_map, length_seq; lia).
    by destruct i, j.
Qed.

(** A window that lies inside a dimension is selected whole. *)
Lemma slice_indices_inside v n :
  (1 <= v)%Z -> (v + 2 <= Z.of_nat n)%Z ->
  slice_indices (Slice (v - 1) (v + 2)) n = (Z.to_nat (v - 1), 3%nat).
Proof.
  intros H1 H2. unfold slice_indices, clip_bound; cbn.
  destruct (Z.ltb_spec (v - 1) 0); [lia|].
  destruct (Z.ltb_spec (v + 2) 0); [lia|].
  f_equal; lia.
Qed.

(** The length of the window selected around [v], in every case. *)
Lemma slice_indices_length v n :
  snd (slice_indices (Slice (v - 1) (v + 2)) n) = 3%nat <->
  ((1 <= v)%Z /\ (v + 2 <= Z.of_nat n)%Z) \/
  ((v <= -3)%Z /\ (1 <= v + Z.of_nat n)%Z).
Proof.
  unfold slice_indices, clip_bound; cbn.
  destruct (Z.ltb_spec (v - 1) 0), (Z.ltb_spec (v + 2) 0); lia.
Qed.

Lemma shape3_iadd_box (a a' : ndarray3 T) bx src :
  iadd_box a bx src = Ok a' -> shape3 a' = shape3 a.
Proof.
  unfold iadd_box. destruct (shape3 a) as [[b n] m].
  destruct (slice_indices _ n), (slice_indices _ m).
  destruct (shape3 src) as [[sb sn] sm].
  destruct (fits sb b && _ && _); cbn; [|done].
  by intros [= <-].
Qed.

Lemma iadd_box_inside (a src : ndarray3 T) (y x : Z) (b n m : nat) :
  shape3 a = (b, n, m) -> shape3 src = (b, 3%nat, 3%nat) ->
  (1 <= y)%Z -> (y + 2 <= Z.of_nat n)%Z ->
  (1 <= x)%Z -> (x + 2 <= Z.of_nat m)%Z ->
  exists a', iadd_box a (Slice (y - 1) (y + 2), Slice (x - 1) (x + 2)) src = Ok a' /\
    shape3 a' = (b, n, m).
Proof.
  intros Ha Hs Hy1 Hy2 Hx1 Hx2. unfold iadd_box. rewrite Ha, Hs. cbn [fst snd].
  rewrite !slice_indices_inside by done. rewrite !fits_same. cbn.
  eexists; split; [done|]. done.
Qed.

End ArrayFacts.

(** ** The loops, component by component *)

Section Loops.
Context {T : Type} `{Num T}.
Implicit Types (comps : list (component T)) (c : component T).

Lemma index_app_middle {A} (pre rest : list A) (a : A) :
  index (pre ++ a :: rest) (length pre) = Ok a.
Proof. unfold index. by rewrite list_lookup_middle. Qed.

Lemma get_full_model_loop_from pre rest st :
  foldM (get_full_model_body (seds_of (pre ++ rest)) (morphs_of (pre ++ rest))
                             (centers_of (pre ++ rest)))
        st (seq (length pre) (length rest))
  = foldM render_component st rest.
Proof.
  revert pre st. induction rest as [|c rest IH]; intros pre st; [done|].
  cbn [length seq foldM].
  replace (get_full_model_body _ _ _ st (length pre)) with (render_component st c).
  - destruct (render_component st c) as [st'|e]; cbn; [|done].
    specialize (IH (pre ++ [c]) st').
    rewrite <- app_assoc in IH; cbn in IH.
    rewrite length_app in IH; cbn in IH.
    by replace (length pre + 1)%nat with (S (length pre)) in IH by lia.
  - unfold get_full_model_body, seds_of, morphs_of, centers_of.
    rewrite !map_app; cbn [map].
    rewrite <- (length_map sed pre) at 1. rewrite index_app_middle; cbn.
    rewrite <- (length_map morph pre) at 1. rewrite index_app_middle; cbn.
    rewrite <- (length_map center pre) at 1. rewrite index_app_middle; cbn.
    done.
Qed.

Lemma get_full_model_loop_comps comps shape :
  get_full_model_loop (seds_of comps) (morphs_of comps) (centers_of comps) shape
  = foldM render_component (RenderLocals (np_zeros shape) [] None) comps.
Proof.
  unfold get_full_model_loop.
  unfold seds_of at 2. rewrite length_map.
  apply (get_full_model_loop_from [] comps).
Qed.

Lemma grad_get_full_model_from g m pre rest acc :
  foldM (grad_get_full_model_body g m (centers_of (pre ++ rest))
                                  (seds_of (pre ++ rest)) (morphs_of (pre ++ rest)))
        acc (seq (length pre) (length rest))
  = foldM (grad_component g m) acc rest.
Proof.
  revert pre acc. induction rest as [|c rest IH]; intros pre acc; [done|].
  cbn [length seq foldM].
  replace (grad_get_full_model_body _ _ _ _ _ acc (length pre))
    with (grad_component g m acc c).
  - destruct (grad_component g m acc c) as [acc'|e]; cbn; [|done].
    specialize (IH (pre ++ [c]) acc').
    rewrite <- app_assoc in IH; cbn in IH.
    rewrite length_app in IH; cbn in IH.
    by replace (length pre + 1)%nat with (S (length pre)) in IH by lia.
  - unfold grad_get_full_model_body, grad_component, seds_of, morphs_of, centers_of.
    rewrite !map_app; cbn [map].
    rewrite <- (length_map sed pre) at 1. rewrite index_app_middle; cbn.
    rewrite <- (length_map morph pre) at 1. rewrite index_app_middle; cbn.
    rewrite <- (length_map center pre) at 1. rewrite index_app_middle; cbn.
    done.
Qed.

Lemma grad_get_full_model_comps g m comps :
  grad_get_full_model g m (centers_of comps) (seds_of comps) (morphs_of comps)
  = foldM (grad_component g m) ([], []) comps.
Proof.
  unfold grad_get_full_model.
  unfold centers_of at 2. rewrite length_map.
  apply (grad_get_full_model_from g m [] comps).
Qed.

End Loops.

(** ** Rendering components that fit the image *)

Section Render.
Context {T : Type} `{Num T}.
Implicit Types (comps : list (component T)) (c : component T).

Lemma shape3_outer (v : list T) (m : ndarray2 T) :
  shape3 (outer v m) = (length v, fst (shape2 m), snd (shape2 m)).
Proof. unfold outer. by destruct (shape2 m). Qed.

Lemma render_component_ok shape st c :
  shape3 (rl_model st) = shape ->
  component_ok shape c ->
  exists st', render_component st c = Ok st' /\
    shape3 (rl_model st') = shape /\
    rl_boxes st' = rl_boxes st ++ [center_box (center c)] /\
    rl_box st' = Some (center_box (center c)).
Proof.
  destruct shape as [[b n] m]. intros Hsh (Hlen & Hm & [Hy1 Hy2] & [Hx1 Hx2]).
  cbn in *. unfold render_component, get_component_model, center_box.
  destruct (center c) as [y x]; cbn in *.
  unfold iadd_box. rewrite Hsh. cbn [fst snd].
  rewrite !slice_indices_inside by done.
  rewrite shape3_outer, Hm, Hlen; cbn [fst snd].
  rewrite !fits_same; cbn.
  eexists; split; [done|]. cbn. done.
Qed.

Lemma render_components_ok shape comps st :
  shape3 (rl_model st) = shape ->
  Forall (component_ok shape) comps ->
  exists st', foldM render_component st comps = Ok st' /\
    shape3 (rl_model st') = shape /\
    rl_boxes st' = rl_boxes st ++ map center_box (centers_of comps) /\
    rl_box st' = match last comps with
                 | Some c => Some (center_box (center c))
                 | None => rl_box st
                 end.
Proof.
  intros Hsh Hok. revert st Hsh.
  induction Hok as [|c comps Hc Hok IH]; intros st Hsh.
  - exists st. cbn. by rewrite app_nil_r.
  - destruct (render_component_ok shape st c Hsh Hc) as (st1 & E1 & Hsh1 & Hbs1 & Hb1).
    destruct (IH st1 Hsh1) as (st' & E' & Hsh' & Hbs' & Hb').
    exists st'. cbn [foldM]. rewrite E1; cbn. split; [done|]. split; [done|].
    split.
    + rewrite Hbs', Hbs1. cbn. by rewrite <- app_assoc.
    + rewrite Hb'. destruct comps as [|c' comps']; [done|].
      rewrite last_cons_cons.
      destruct (last (c' :: comps')) eqn:E; [done|].
      by apply last_None in E.
Qed.

(** With at least one component that fits, [get_full_model] returns the
    model and the box of the last component. *)
Lemma get_full_model_ok shape comps c0 :
  Forall (component_ok shape) comps ->
  last comps = Some c0 ->
  exists model,
    get_full_model (seds_of comps) (morphs_of comps) (centers_of comps) shape
    = Ok (model, center_box (center c0)) /\
    get_full_model_loop (seds_of comps) (morphs_of comps) (centers_of comps) shape
    = Ok (RenderLocals model (map center_box (centers_of comps))
                       (Some (center_box (center c0)))) /\
    shape3 model = shape.
Proof.
  intros Hok Hlast.
  destruct (render_components_ok shape comps
              (RenderLocals (np_zeros shape) [] None)) as (st & E & Hsh & Hbs & Hb);
    [apply shape3_np_zeros|done|].
  rewrite Hlast in Hb. cbn in Hbs.
  exists (rl_model st). unfold get_full_model.
  rewrite get_full_model_loop_comps, E. cbn. rewrite Hb. cbn.
  split; [done|]. split; [|done].
  destruct st; cbn in *. by subst.
Qed.

End Render.

(** ** The gradient of components that fit the image *)

Section Gradient.
Context {T : Type} `{Num T}.
Implicit Types (comps : list (component T)) (c : component T).

Lemma fold_left_ext_in {A B} (f g : A -> B -> A) (l : list B) (a : A) :
  (forall acc x, In x l -> f acc x = g acc x) ->
  fold_left f l a = fold_left g l a.
Proof.
  revert a. induction l as [|x l IH]; intros a Hfg; [done|].
  cbn. rewrite Hfg by (by left). apply IH. intros; apply Hfg. by right.
Qed.

Lemma sum_upto_ext n (f g : nat -> T) :
  (forall i, (i < n)%nat -> f i = g i) -> sum_upto n f = sum_upto n g.
Proof.
  intros Hfg. unfold sum_upto. apply fold_left_ext_in.
  intros acc i Hi. apply in_seq in Hi. rewrite Hfg; [done|lia].
Qed.

Lemma grad_logL_same_shape (data model : ndarray3 T) (w : T) :
  shape3 model = shape3 data ->
  exists gL, grad_logL data model w = Ok gL /\
    shape3 gL = shape3 data /\
    forall ch i j,
      (ch < fst (fst (shape3 data)))%nat ->
      (i < snd (fst (shape3 data)))%nat ->
      (j < snd (shape3 data))%nat ->
      get3 gL ch i j = w *! (get3 model ch i j -! get3 data ch i j).
Proof.
  intros Hsh. unfold grad_logL, np_binop. rewrite Hsh.
  destruct (shape3 data) as [[b n] m]. rewrite !bdim_same. cbn.
  eexists; split; [done|]. split; [done|].
  intros ch i j Hc Hi Hj. unfold np_scale. rewrite shape3_tab3.
  rewrite !get3_tab3 by done. by rewrite !bidx_lt.
Qed.

Lemma window_index_inside v n i :
  inside v n -> (i < 3)%nat -> (window_index v i < n)%nat.
Proof. unfold inside, window_index. lia. Qed.

Lemma grad_get_component_model_ok shape (g m : ndarray3 T) c :
  shape3 g = shape ->
  component_ok shape c ->
  exists sg mg,
    grad_get_component_model g m (sed c) (morph c) (center c) = Ok (sg, mg) /\
    length sg = fst (fst shape) /\
    shape2 mg = (3%nat, 3%nat) /\
    (forall ch, (ch < fst (fst shape))%nat ->
       get1 sg ch = sum_upto 3 (fun i => sum_upto 3 (fun j =>
         get3 g ch (window_index (fst (center c)) i) (window_index (snd (center c)) j)
         *! get2 (morph c) i j))) /\
    (forall i j, (i < 3)%nat -> (j < 3)%nat ->
       get2 mg i j = sum_upto (fst (fst shape)) (fun ch =>
         get1 (sed c) ch
         *! get3 g ch (window_index (fst (center c)) i) (window_index (snd (center c)) j))).
Proof.
  destruct shape as [[b n] mm]. intros Hsh (Hlen & Hm & [Hy1 Hy2] & [Hx1 Hx2]).
  cbn in *. unfold grad_get_component_model.
  destruct (center c) as [y x]; cbn in *.
  unfold getitem_box. rewrite Hsh; cbn [fst snd].
  rewrite !slice_indices_inside by done.
  unfold einsum_jk, einsum_i. rewrite !shape3_tab3, Hm, Hlen.
  rewrite !bdim_same. cbn.
  eexists _, _; split; [done|].
  split; [apply length_tab1|]. split; [done|]. split.
  - intros ch Hch. rewrite get1_tab1 by done.
    apply sum_upto_ext; intros i Hi. apply sum_upto_ext; intros j Hj.
    rewrite ?bidx_lt by done.
    by rewrite (get3_tab3 b 3 3) by done.
  - intros i j Hi Hj. rewrite get2_tab2 by done.
    apply sum_upto_ext; intros ch Hch.
    rewrite ?bidx_lt by done.
    by rewrite (get3_tab3 b 3 3) by done.
Qed.

(** The gradient loop collects the per-component results in order. *)
Lemma grad_components_collect (g m : ndarray3 T) comps rs acc :
  Forall2 (fun c r =>
    grad_get_component_model g m (sed c) (morph c) (center c) = Ok r) comps rs ->
  foldM (grad_component g m) acc comps
  = Ok (fst acc ++ map fst rs, snd acc ++ map snd rs).
Proof.
  intros HF. revert acc. induction HF as [|c r comps rs Hr HF IH]; intros acc.
  - cbn. rewrite !app_nil_r. by destruct acc.
  - cbn [foldM].
    replace (grad_component g m acc c)
      with (Ok (A:=list (list T) * list (ndarray2 T))
               (fst acc ++ [fst r], snd acc ++ [snd r]))
      by (unfold grad_component; by rewrite Hr).
    cbn. rewrite IH. cbn. by rewrite <- !app_assoc.
Qed.

End Gradient.

(** ** The direct gradient pipeline *)

Section Pipeline.
Context {T : Type} `{Num T}.
Implicit Types (comps : list (component T)) (c : component T).

Lemma grad_components_ok shape (g m : ndarray3 T) comps :
  shape3 g = shape ->
  Forall (component_ok shape) comps ->
  exists rs, Forall2 (fun c r =>
    grad_get_component_model g m (sed c) (morph c) (center c) = Ok r) comps rs.
Proof.
  intros Hsh Hok. induction Hok as [|c comps Hc Hok [rs IH]].
  - by exists [].
  - destruct (grad_get_component_model_ok shape g m c Hsh Hc) as (sg & mg & E & _).
    exists ((sg, mg) :: rs). by constructor.
Qed.


End Pipeline.


(** The pipeline run on the sample: the model, then both gradients. *)
Example direct_gradients_sample :
  get_full_model (seds_of two_components) (morphs_of two_components)
                 (centers_of two_components) (shape3 sample_data)
  = Ok (NdArray3 (1, 7, 7)%nat
          [[[0; 0; 0; 0; 0; 0; 0]; [0; 0; 2; 0; 0; 0; 0]; [0; 2; 8; 2; 0; 0; 0];
            [0; 0; 2; 0; 0; 0; 0]; [0; 0; 3; 0; 0; 0; 0]; [0; 0; 0; 3; 0; 0; 0];
            [0; 0; 0; 0; 3; 0; 0]]],
        (Slice 4 7, Slice 2 5)) /\
  calculate_gradients_direct sample_data (centers_of two_components)
    (seds_of two_components) (morphs_of two_components)
  = Ok ([[8]; [-15]],
        [NdArray2 (3, 3)%nat [[-4; -2; -8]; [-2; 8; -6]; [-8; -6; -12]];
         NdArray2 (3, 3)%nat [[-9; -21; -24]; [-21; -15; -27]; [-24; -27; -21]]]).
Proof. split; vm_compute; reflexivity. Qed.

(** ** The box, the unused argument, and what [get_full_model] returns *)

Section Boxes.
Context {T : Type} `{Num T}.
Implicit Types (comps : list (component T)) (c : component T).

(** C7. The box of a component is
    [(slice(y-1, y+2), slice(x-1, x+2))], whatever its sed and
    morphology. *)
Theorem C7_box_from_center (sed1 sed2 : list T) (morph1 morph2 : ndarray2 T)
    (y x : Z) :
  snd (get_component_model sed1 morph1 (y, x))
  = (Slice (y - 1) (y + 2), Slice (x - 1) (x + 2)) /\
  snd (get_component_model sed2 morph2 (y, x))
  = snd (get_component_model sed1 morph1 (y, x)).
Proof. by split. Qed.

(** C10. [grad_get_component_model] ignores its [model] argument. *)
Theorem C10_model_argument_unused (chain_grad m1 m2 : ndarray3 T)
    (sed0 : list T) (morph0 : ndarray2 T) (center0 : Z * Z) :
  grad_get_component_model chain_grad m1 sed0 morph0 center0
  = grad_get_component_model chain_grad m2 sed0 morph0 center0.
Proof. reflexivity. Qed.

(** C2. For a non-empty list of components that fit the image,
    [get_full_model] returns the model with one box, the last
    component's, although the loop has collected the boxes of all
    components, in order, in [boxes]. *)
Theorem C2_last_box_returned shape comps c0 :
  Forall (component_ok shape) comps ->
  last comps = Some c0 ->
  exists model,
    get_full_model (seds_of comps) (morphs_of comps) (centers_of comps) shape
    = Ok (model, center_box (center c0)) /\
    get_full_model_loop (seds_of comps) (morphs_of comps) (centers_of comps) shape
    = Ok (RenderLocals model (map center_box (centers_of comps))
                       (Some (center_box (center c0)))).
Proof.
  intros Hok Hlast.
  destruct (get_full_model_ok shape comps c0 Hok Hlast) as (model & E1 & E2 & _).
  by exists model.
Qed.

(** C3. With no component the loop leaves the zero image in [model],
    but [box] was never bound and the [return] raises. *)
Theorem C3_no_component_raises (shape : nat * nat * nat) :
  get_full_model_loop (T:=T) [] [] [] shape
  = Ok (RenderLocals (np_zeros shape) [] None) /\
  get_full_model (T:=T) [] [] [] shape = Err UnboundLocalError.
Proof. by split. Qed.

End Boxes.

Lemma C2_last_box_returned_witness :
  exists model,
    get_full_model (seds_of two_components) (morphs_of two_components)
                   (centers_of two_components) (1, 7, 7)%nat
    = Ok (model, (Slice 4 7, Slice 2 5)) /\
    get_full_model_loop (seds_of two_components) (morphs_of two_components)
                   (centers_of two_components) (1, 7, 7)%nat
    = Ok (RenderLocals model [(Slice 1 4, Slice 1 4); (Slice 4 7, Slice 2 5)]
                       (Some (Slice 4 7, Slice 2 5))).
Proof.
  apply (C2_last_box_returned (1, 7, 7)%nat two_components second_component).
  - repeat constructor; cbn; lia.
  - reflexivity.
Defined.

(** C5. One component with sed [1], the morphology that is 1 at its
    centre and 0 elsewhere, centred at (5, 5) of a (1, 11, 11) image:
    the rendered image is 1 at pixel (0, 5, 5) and 0 at every other
    pixel. Computed in binary64 and in exact integers. *)
Theorem C5_single_pixel :
  get_full_model (T:=float) [[num_one]] [unit_morph] [(5, 5)] (1, 11, 11)%nat
  = Ok (tab3 1 11 11 (fun c i j =>
          if (c =? 0)%nat && (i =? 5)%nat && (j =? 5)%nat
          then num_one else num_zero),
        (Slice 4 7, Slice 4 7)) /\
  get_full_model (T:=Z) [[num_one]] [unit_morph] [(5, 5)] (1, 11, 11)%nat
  = Ok (tab3 1 11 11 (fun c i j =>
          if (c =? 0)%nat && (i =? 5)%nat && (j =? 5)%nat
          then num_one else num_zero),
        (Slice 4 7, Slice 4 7)).
Proof. split; vm_compute; reflexivity. Qed.

(** ** Components numpy refuses *)

Section Rejection.
Context {T : Type} `{Num T}.
Implicit Types (comps : list (component T)) (c : component T).

Lemma fits_3 n : fits 3 n = true -> n = 3%nat.
Proof. unfold fits. destruct (Nat.eqb_spec 3 n); [done|]. cbn. done. Qed.

Lemma fits_sed l b : fits l b = true -> l = b \/ l = 1%nat.
Proof.
  unfold fits. destruct (Nat.eqb_spec l b), (Nat.eqb_spec l 1); auto. done.
Qed.

Lemma cut_short_length v n :
  cut_short v n -> snd (slice_indices (Slice (v - 1) (v + 2)) n) <> 3%nat.
Proof.
  intros [Hin Hwrap] Hlen. apply slice_indices_length in Hlen.
  unfold inside in Hin. tauto.
Qed.

Lemma render_component_rejected shape st c :
  shape3 (rl_model st) = shape ->
  shape2 (morph c) = (3%nat, 3%nat) ->
  rejected shape c ->
  render_component st c = Err ValueError.
Proof.
  destruct shape as [[b n] m]. intros Hsh Hm Hrej.
  unfold rejected in Hrej. cbn [fst snd] in Hrej.
  unfold render_component, get_component_model.
  destruct (center c) as [y x]; cbn in Hrej.
  unfold iadd_box. rewrite Hsh. cbn [fst snd].
  pose proof (cut_short_length y n) as Hy.
  pose proof (cut_short_length x m) as Hx.
  destruct (slice_indices _ n) as [r0 nr], (slice_indices _ m) as [c0 nc].
  rewrite shape3_outer, Hm; cbn [fst snd] in *.
  destruct (fits (length (sed c)) b && fits 3 nr && fits 3 nc) eqn:Hfit; [|done].
  apply andb_prop in Hfit as [Hfit Hc]. apply andb_prop in Hfit as [Hs Hr].
  apply fits_3 in Hc, Hr. apply fits_sed in Hs.
  destruct Hrej as [[? ?]|[?|?]]; [lia|tauto|tauto].
Qed.

Lemma render_component_cases st c :
  (exists st', render_component st c = Ok st' /\
     shape3 (rl_model st') = shape3 (rl_model st)) \/
  render_component st c = Err ValueError.
Proof.
  unfold render_component. destruct (get_component_model _ _ _) as [src bx].
  destruct (iadd_box (rl_model st) bx src) as [a|e] eqn:E; cbn.
  - left. eexists; split; [done|]. cbn. by eapply shape3_iadd_box.
  - right. revert E. unfold iadd_box.
    destruct (shape3 (rl_model st)) as [[b n] m].
    destruct (slice_indices _ n), (slice_indices _ m).
    destruct (shape3 src) as [[sb sn] sm].
    destruct (fits sb b && _ && _); cbn; [done|]. by intros [= <-].
Qed.

Lemma render_components_rejected shape comps st :
  shape3 (rl_model st) = shape ->
  Forall (fun c => shape2 (morph c) = (3%nat, 3%nat)) comps ->
  Exists (rejected shape) comps ->
  foldM render_component st comps = Err ValueError.
Proof.
  intros Hsh Hm Hex. revert st Hsh Hm.
  induction Hex as [c comps Hrej|c comps Hex IH]; intros st Hsh Hm;
    apply Forall_cons in Hm as [Hmc Hm]; cbn [foldM].
  - by rewrite (render_component_rejected shape st c).
  - destruct (render_component_cases st c) as [(st' & E & Hsh')|E]; rewrite E; cbn.
    + apply IH; [congruence|done].
    + done.
Qed.

Lemma render_component_err_rejected shape st c e :
  shape3 (rl_model st) = shape ->
  shape2 (morph c) = (3%nat, 3%nat) ->
  render_component st c = Err e ->
  rejected shape c.
Proof.
  destruct shape as [[b n] m]. intros Hsh Hm.
  unfold rejected. cbn [fst snd].
  unfold render_component, get_component_model.
  destruct (center c) as [y x]; cbn [fst snd].
  unfold iadd_box. rewrite Hsh. cbn [fst snd].
  pose proof (proj2 (slice_indices_length y n)) as Hy.
  pose proof (proj2 (slice_indices_length x m)) as Hx.
  destruct (slice_indices _ n) as [r0 nr], (slice_indices _ m) as [c0 nc].
  rewrite shape3_outer, Hm; cbn [fst snd] in *.
  unfold fits, cut_short, inside.
  destruct (Nat.eqb_spec (length (sed c)) b), (Nat.eqb_spec (length (sed c)) 1),
    (Nat.eqb_spec 3 nr), (Nat.eqb_spec 3 nc); cbn; try done; intros _;
    intuition lia.
Qed.

Lemma render_components_err_rejected shape comps st :
  shape3 (rl_model st) = shape ->
  Forall (fun c => shape2 (morph c) = (3%nat, 3%nat)) comps ->
  foldM render_component st comps = Err ValueError ->
  Exists (rejected shape) comps.
Proof.
  intros Hsh Hm. revert st Hsh.
  induction Hm as [|c comps Hmc Hm IH]; intros st Hsh; [done|].
  cbn [foldM].
  destruct (render_component st c) as [st'|e] eqn:E; cbn [mbind result_bind].
  - intros Hrest. apply Exists_cons_tl. apply (IH st'); [|done].
    destruct (render_component_cases st c) as [(st1 & E1 & Hsh1)|E1];
      rewrite E in E1; [|done]. injection E1 as <-. congruence.
  - intros _. apply Exists_cons_hd.
    by apply (render_component_err_rejected shape st c e).
Qed.

(** C4, as the code has it. [get_full_model] raises [ValueError] exactly
    when some component's sed has neither one entry per channel nor a
    single entry, or a side of some component's window is cut short by
    the image bounds; [calculate_gradients_direct] raises with it. *)
Theorem C4_rejected_components_raise comps (data : ndarray3 T) :
  Forall (fun c => shape2 (morph c) = (3%nat, 3%nat)) comps ->
  (get_full_model (seds_of comps) (morphs_of comps) (centers_of comps)
                  (shape3 data) = Err ValueError
   <-> Exists (rejected (shape3 data)) comps) /\
  (Exists (rejected (shape3 data)) comps ->
   calculate_gradients_direct data (centers_of comps) (seds_of comps)
                              (morphs_of comps) = Err ValueError).
Proof.
  intros Hm.
  assert (Exists (rejected (shape3 data)) comps ->
          get_full_model (seds_of comps) (morphs_of comps) (centers_of comps)
            (shape3 data) = Err ValueError) as Hraise.
  { intros Hex. unfold get_full_model. rewrite get_full_model_loop_comps.
    rewrite (render_components_rejected (shape3 data)); [done| |done|done].
    apply shape3_np_zeros. }
  split; [split; [|done]|].
  - unfold get_full_model. rewrite get_full_model_loop_comps.
    destruct (foldM render_component _ comps) as [st|e] eqn:E;
      cbn [mbind result_bind].
    + by destruct (rl_box st).
    + intros [= ->].
      eapply render_components_err_rejected; [|done|done].
      apply shape3_np_zeros.
  - intros Hex. unfold calculate_gradients_direct. by rewrite Hraise.
Qed.

End Rejection.

(** A window around row 0 of a 5x5 image is cut short. *)
Lemma C4_rejected_components_raise_witness :
  get_full_model (T:=Z) (seds_of [Component [2] unit_morph (0, 2)])
                 (morphs_of [Component [2] unit_morph (0, 2)])
                 (centers_of [Component [2] unit_morph (0, 2)])
                 (shape3 (np_zeros (1, 5, 5)%nat)) = Err ValueError /\
  calculate_gradients_direct (T:=Z) (np_zeros (1, 5, 5)%nat)
                 (centers_of [Component [2] unit_morph (0, 2)])
                 (seds_of [Component [2] unit_morph (0, 2)])
                 (morphs_of [Component [2] unit_morph (0, 2)]) = Err ValueError.
Proof.
  assert (Exists (rejected (shape3 (np_zeros (T:=Z) (1, 5, 5)%nat)))
                 [Component [2] unit_morph (0, 2)]) as Hex.
  { apply Exists_cons_hd. right; left. unfold cut_short, inside; cbn. lia. }
  destruct (C4_rejected_components_raise
              [Component [2] unit_morph (0, 2)] (np_zeros (1, 5, 5)%nat))
    as [[_ Hrender] Hgrad].
  - repeat constructor.
  - split; [apply Hrender|apply Hgrad]; exact Hex.
Defined.

(** C4 as stated fails. A window around row -3 lies outside a 5x5
    image, yet Python counts its bounds from the end: the component is
    rendered around row 2 and the gradient is returned, without an
    error. A sed of one entry does not match two channels, yet numpy
    broadcasts it: the component is rendered into both channels. *)
Lemma C4_counterexample :
  (~ inside (-3) 5 /\
   get_full_model (T:=float) [[num_one]] [unit_morph] [(-3, 2)] (1, 5, 5)%nat
   = Ok (tab3 1 5 5 (fun c i j =>
           if (i =? 2)%nat && (j =? 2)%nat then num_one else num_zero),
         (Slice (-4) (-1), Slice 1 4)) /\
   is_ok (calculate_gradients_direct (T:=float) (np_zeros (1, 5, 5)%nat)
            [(-3, 2)] [[num_one]] [unit_morph]) = true) /\
  (length [num_one (T:=float)] <> 2%nat /\
   get_full_model (T:=float) [[num_one]] [unit_morph] [(2, 2)] (2, 5, 5)%nat
   = Ok (tab3 2 5 5 (fun c i j =>
           if (i =? 2)%nat && (j =? 2)%nat then num_one else num_zero),
         (Slice 1 4, Slice 1 4))).
Proof.
  split; split.
  - unfold inside. lia.
  - split; vm_compute; reflexivity.
  - cbn. lia.
  - vm_compute. reflexivity.
Qed.

(** ** The scene builder keeps its centers away from the edges *)

Section SceneFacts.
Context {T : Type} `{Num T} {G : Type} `{!RandomState T G}.

Lemma np_random_randint_ok (lo hi : Z) (g : G) :
  (lo < hi)%Z ->
  exists v g', np_random_randint lo hi g = (Ok v, g') /\ (lo <= v < hi)%Z.
Proof.
  intros Hlt. unfold np_random_randint.
  destruct (Z.ltb_spec lo hi); [|lia].
  pose proof (rng_randint_range lo hi g Hlt) as Hr.
  destruct (rng_randint lo hi g) as [v g']. by exists v, g'.
Qed.

Lemma np_random_rand_ok (n : nat) (g : G) :
  exists vs g', np_random_rand (T:=T) n g = (Ok vs, g') /\ length vs = n.
Proof.
  revert g. induction n as [|n IH]; intros g.
  - by exists [], g.
  - cbn. destruct (rng_rand g) as [v g1].
    destruct (IH g1) as (vs & g2 & E & Hlen). rewrite E.
    exists (v :: vs), g2. cbn. by rewrite Hlen.
Qed.

Lemma morphs_filled (K : nat) (l : list nat) (ms : list (ndarray2 T)) :
  length ms = K ->
  Forall (fun m => shape2 m = (3%nat, 3%nat)) ms ->
  let ms' := fold_left (fun ms k => <[k := arange9]> ms) l ms in
  length ms' = K /\ Forall (fun m => shape2 m = (3%nat, 3%nat)) ms'.
Proof.
  revert ms. induction l as [|k l IH]; intros ms Hlen Hsh; [done|].
  cbn. apply IH.
  - by rewrite length_insert.
  - by apply Forall_insert.
Qed.

Lemma build_scene_body_ok (B N M K k : nat) (st : scene T) (g : G) :
  (8 < N)%nat -> (8 < M)%nat -> (k < K)%nat ->
  scene_inv (B, N, M) K k st ->
  exists st' g', build_scene_body B st k g = (Ok st', g') /\
    scene_inv (B, N, M) K (S k) st'.
Proof.
  intros HN HM Hk (Hsh & Hcs & Hms & Hm33 & Hdone). cbn [fst snd] in Hdone.
  unfold build_scene_body. rewrite Hsh. cbn [fst snd].
  destruct (np_random_randint_ok 4 (Z.of_nat N - 4) g) as (cy & g1 & E1 & Hcy); [lia|].
  rewrite (stateE_bind_ok _ _ _ _ _ E1).
  destruct (np_random_randint_ok 4 (Z.of_nat M - 4) g1) as (cx & g2 & E2 & Hcx); [lia|].
  rewrite (stateE_bind_ok _ _ _ _ _ E2).
  destruct (np_random_rand_ok B g2) as (vs & g3 & E3 & Hvs).
  rewrite (stateE_bind_ok _ _ _ _ _ E3).
  destruct (lookup_lt_is_Some_2 (sc_morphs st) k) as [mk Emk]; [lia|].
  assert (shape2 mk = (3%nat, 3%nat)) as Hmk
    by exact (Forall_lookup_1 _ _ _ _ Hm33 Emk).
  unfold index. rewrite Emk.
  rewrite (stateE_bind_ok (lift (Ok mk)) _ g3 mk g3 eq_refl).
  destruct (iadd_box_inside (sc_images st)
              (outer_rev mk (map (fun s => s *! (num_of_Z 500 /! np_sum vs)) vs))
              cy cx B N M) as (img & E5 & Hsh5); [done| |lia..|].
  { unfold outer_rev. by rewrite Hmk, shape3_tab3, length_map, Hvs. }
  rewrite E5.
  rewrite (stateE_bind_ok (lift (Ok img)) _ g3 img g3 eq_refl).
  eexists _, g3; split; [done|].
  split; [done|]. cbn [sc_centers sc_morphs sc_images].
  rewrite length_insert. split; [done|]. split; [done|]. split; [done|].
  intros i Hi. cbn [fst snd]. destruct (decide (i = k)) as [->|Hne].
  - exists cy, cx. rewrite list_lookup_insert_eq by lia. split; [done|]. lia.
  - rewrite list_lookup_insert_ne by done. apply Hdone. lia.
Qed.

Lemma build_scene_loop_ok (B N M K : nat) (n k : nat) (st : scene T) (g : G) :
  (8 < N)%nat -> (8 < M)%nat -> (k + n = K)%nat ->
  scene_inv (B, N, M) K k st ->
  exists st' g', for_each (build_scene_body B) st (seq k n) g = (Ok st', g') /\
    scene_inv (B, N, M) K K st'.
Proof.
  intros HN HM. revert k st g. induction n as [|n IH]; intros k st g Hkn Hinv.
  - exists st, g. split; [done|]. by replace k with K in Hinv by lia.
  - cbn [seq for_each].
    destruct (build_scene_body_ok B N M K k st g) as (st1 & g1 & E1 & Hinv1);
      [done|done|lia|done|].
    rewrite (stateE_bind_ok _ _ _ _ _ E1).
    apply IH; [lia|done].
Qed.

End SceneFacts.

Section SceneMargin.
Context {T : Type} `{Num T} {G : Type} `{!RandomState T G}.

(** C8. For a shape (B, N, M) with N > 8 and M > 8 and any number K of
    components, [build_scene] builds K centers, each with
    4 <= cy <= N-5 and 4 <= cx <= M-5, so that every 3x3 window lies
    inside the image, and returns them unless drawing the scene raises;
    this for every state of the random generator. *)
Theorem C8_centers_margin (show_image : ndarray3 T -> option (Z * Z) -> result unit)
    (B N M K : nat) (figsize : option (Z * Z)) (show : bool) (g : G) :
  (8 < N)%nat -> (8 < M)%nat ->
  exists images centers seds morphs g',
    build_scene show_image (B, N, M) K figsize show g
    = (match (if show then show_image images figsize else Ok tt) with
       | Ok _ => Ok (images, centers, seds, morphs)
       | Err e => Err e
       end, g') /\
    length centers = K /\
    Forall (fun ctr =>
      (4 <= fst ctr <= Z.of_nat N - 5)%Z /\ (4 <= snd ctr <= Z.of_nat M - 5)%Z /\
      inside (fst ctr) N /\ inside (snd ctr) M) centers.
Proof.
  intros HN HM. unfold build_scene.
  destruct (morphs_filled K (seq 0 K) (repeat unit_morph K)) as [Hlen Hsh].
  { apply repeat_length. }
  { apply Forall_forall. intros m Hm. apply list_elem_of_In in Hm.
    by apply repeat_spec in Hm as ->. }
  destruct (build_scene_loop_ok B N M K K 0
              (Scene (np_zeros (B, N, M)) (repeat (0%Z, 0%Z) K)
                     (repeat (repeat num_zero B) K)
                     (fold_left (fun ms k => <[k := arange9]> ms) (seq 0 K)
                                (repeat unit_morph K))) g)
    as (st & g' & E & Hshape & Hcs & _ & _ & Hdone); [done|done|done| |].
  { split; [done|]. split; [apply repeat_length|]. split; [done|].
    split; [done|]. intros i Hi. lia. }
  rewrite (stateE_bind_ok _ _ _ _ _ E).
  exists (sc_images st), (sc_centers st), (sc_seds st), (sc_morphs st), g'.
  split.
  { rewrite stateE_bind_run. unfold lift.
    by destruct (if show then _ else _). }
  split; [done|].
  apply Forall_lookup_2. intros i [cy cx] Hi.
  destruct (Hdone i) as (cy' & cx' & Hi' & Hy & Hx).
  { rewrite <- Hcs. by eapply lookup_lt_Some. }
  rewrite Hi in Hi'. injection Hi' as <- <-. cbn [fst snd] in *.
  unfold inside. lia.
Qed.

End SceneMargin.

Lemma C8_centers_margin_witness :
  exists images centers seds morphs g',
    build_scene (T:=float) (G:=Z) (fun _ _ => Ok tt) (3, 11, 12)%nat 4 None false 1
    = (Ok (images, centers, seds, morphs), g') /\
    length centers = 4%nat /\
    Forall (fun ctr =>
      (4 <= fst ctr <= Z.of_nat 11 - 5)%Z /\ (4 <= snd ctr <= Z.of_nat 12 - 5)%Z /\
      inside (fst ctr) 11 /\ inside (snd ctr) 12) centers.
Proof.
  apply (C8_centers_margin (T:=float) (G:=Z) (fun _ _ => Ok tt)
           3 11 12 4 None false 1); lia.
Defined.

(** ** The store: what is read, what is written *)

Section StoreFacts.
Context {T : Type} `{Num T}.
Implicit Types (h : gmap positive (Store.object (T:=T))).

Lemma load_image_run h l a :
  h !! l = Some (Store.ObjImage a) -> Store.load_image l h = (Ok a, h).
Proof. intros E. unfold Store.load_image, Store.load, mbind, stateE_bind. by rewrite E. Qed.

Lemma load_seds_run h l v :
  h !! l = Some (Store.ObjSeds v) -> Store.load_seds l h = (Ok v, h).
Proof. intros E. unfold Store.load_seds, Store.load, mbind, stateE_bind. by rewrite E. Qed.

Lemma load_morphs_run h l v :
  h !! l = Some (Store.ObjMorphs v) -> Store.load_morphs l h = (Ok v, h).
Proof. intros E. unfold Store.load_morphs, Store.load, mbind, stateE_bind. by rewrite E. Qed.

Lemma load_centers_run h l v :
  h !! l = Some (Store.ObjCenters v) -> Store.load_centers l h = (Ok v, h).
Proof. intros E. unfold Store.load_centers, Store.load, mbind, stateE_bind. by rewrite E. Qed.

Lemma getitem_seds_run h l v k :
  h !! l = Some (Store.ObjSeds v) -> Store.getitem_seds l k h = (index v k, h).
Proof.
  intros E. unfold Store.getitem_seds.
  by rewrite (stateE_bind_ok _ _ _ _ _ (load_seds_run h l v E)).
Qed.

Lemma getitem_morphs_run h l v k :
  h !! l = Some (Store.ObjMorphs v) -> Store.getitem_morphs l k h = (index v k, h).
Proof.
  intros E. unfold Store.getitem_morphs.
  by rewrite (stateE_bind_ok _ _ _ _ _ (load_morphs_run h l v E)).
Qed.

Lemma getitem_centers_run h l v k :
  h !! l = Some (Store.ObjCenters v) -> Store.getitem_centers l k h = (index v k, h).
Proof.
  intros E. unfold Store.getitem_centers.
  by rewrite (stateE_bind_ok _ _ _ _ _ (load_centers_run h l v E)).
Qed.

Lemma iadd_box_at_run h l a bx src :
  h !! l = Some (Store.ObjImage a) ->
  Store.iadd_box_at l bx src h
  = match iadd_box a bx src with
    | Ok a' => (Ok tt, <[l := Store.ObjImage a']> h)
    | Err e => (Err e, h)
    end.
Proof.
  intros E. unfold Store.iadd_box_at.
  rewrite (stateE_bind_ok _ _ _ _ _ (load_image_run h l a E)).
  rewrite stateE_bind_run. unfold lift. by destruct (iadd_box a bx src).
Qed.

(** One iteration of the rendering loop: it reads the three inputs and
    writes the model object only. *)
Lemma get_full_model_body_run h seds morphs centers model ss ms cs a bs b k :
  h !! seds = Some (Store.ObjSeds ss) ->
  h !! morphs = Some (Store.ObjMorphs ms) ->
  h !! centers = Some (Store.ObjCenters cs) ->
  h !! model = Some (Store.ObjImage a) ->
  Store.get_full_model_body seds morphs centers model (bs, b) k h
  = match get_full_model_body ss ms cs (RenderLocals a bs b) k with
    | Ok st' => (Ok (rl_boxes st', rl_box st'),
                 <[model := Store.ObjImage (rl_model st')]> h)
    | Err e => (Err e, h)
    end.
Proof.
  intros Hs Hm Hc Ha.
  unfold Store.get_full_model_body, get_full_model_body.
  rewrite stateE_bind_run, (getitem_seds_run h seds ss k Hs).
  destruct (index ss k) as [sd|e]; cbn [mbind result_bind]; [|done].
  rewrite stateE_bind_run, (getitem_morphs_run h morphs ms k Hm).
  destruct (index ms k) as [mo|e]; cbn [mbind result_bind]; [|done].
  rewrite stateE_bind_run, (getitem_centers_run h centers cs k Hc).
  destruct (index cs k) as [ce|e]; cbn [mbind result_bind]; [|done].
  destruct (get_component_model sd mo ce) as [src bx].
  rewrite stateE_bind_run, (iadd_box_at_run h model a bx src Ha). cbn [rl_model].
  by destruct (iadd_box a bx src) as [a'|e].
Qed.

Lemma get_full_model_loop_run h seds morphs centers model ss ms cs l a bs b :
  h !! seds = Some (Store.ObjSeds ss) ->
  h !! morphs = Some (Store.ObjMorphs ms) ->
  h !! centers = Some (Store.ObjCenters cs) ->
  h !! model = Some (Store.ObjImage a) ->
  exists a',
    snd (for_each (Store.get_full_model_body seds morphs centers model) (bs, b) l h)
    = <[model := Store.ObjImage a']> h /\
    fst (for_each (Store.get_full_model_body seds morphs centers model) (bs, b) l h)
    = match foldM (get_full_model_body ss ms cs) (RenderLocals a bs b) l with
      | Ok st' => Ok (rl_boxes st', rl_box st')
      | Err e => Err e
      end /\
    forall st', foldM (get_full_model_body ss ms cs) (RenderLocals a bs b) l = Ok st' ->
      a' = rl_model st'.
Proof.
  intros Hs Hm Hc. revert h a bs b Hs Hm Hc.
  induction l as [|k l IH]; intros h a bs b Hs Hm Hc Ha.
  - exists a. cbn. split; [by rewrite insert_id|]. split; [done|].
    by intros st' [= <-].
  - cbn [for_each foldM].
    rewrite stateE_bind_run,
      (get_full_model_body_run h seds morphs centers model ss ms cs a bs b k) by done.
    destruct (get_full_model_body ss ms cs (RenderLocals a bs b) k) as [st1|e];
      cbn [mbind result_bind].
    + assert (model <> seds /\ model <> morphs /\ model <> centers) as (N1 & N2 & N3)
        by (repeat split; congruence).
      destruct st1 as [a1 bs1 b1]. cbn [rl_model rl_boxes rl_box].
      destruct (IH (<[model := Store.ObjImage a1]> h) a1 bs1 b1)
        as (a' & E2 & E1 & Ha'); rewrite ?lookup_insert_ne by done; try done.
      { by rewrite lookup_insert_eq. }
      exists a'. rewrite E2, E1. by rewrite insert_insert_eq.
    + exists a. cbn. split; [by rewrite insert_id|]. done.
Qed.

(** [get_full_model] allocates the model and writes nothing else. *)
Lemma get_full_model_run h seds morphs centers ss ms cs shape :
  h !! seds = Some (Store.ObjSeds ss) ->
  h !! morphs = Some (Store.ObjMorphs ms) ->
  h !! centers = Some (Store.ObjCenters cs) ->
  exists a',
    snd (Store.get_full_model seds morphs centers shape h)
    = <[fresh (dom h) := Store.ObjImage a']> h /\
    fst (Store.get_full_model seds morphs centers shape h)
    = match get_full_model ss ms cs shape with
      | Ok (_, bx) => Ok (fresh (dom h), bx)
      | Err e => Err e
      end /\
    forall a bx, get_full_model ss ms cs shape = Ok (a, bx) -> a' = a.
Proof.
  intros Hs Hm Hc.
  assert (h !! fresh (dom h) = None) as Hfresh.
  { apply not_elem_of_dom, is_fresh. }
  set (model := fresh (dom h)) in *.
  assert (model <> seds /\ model <> morphs /\ model <> centers) as (N1 & N2 & N3)
    by (repeat split; intros E; rewrite E in Hfresh; congruence).
  set (h1 := <[model := Store.ObjImage (np_zeros shape)]> h).
  unfold Store.get_full_model.
  rewrite (stateE_bind_ok (Store.alloc (Store.ObjImage (np_zeros shape)))
             _ h model h1 eq_refl).
  rewrite (stateE_bind_ok _ _ h1 ss h1)
    by (apply load_seds_run; subst h1; by rewrite lookup_insert_ne).
  destruct (get_full_model_loop_run h1 seds morphs centers model ss ms cs
              (seq 0 (length ss)) (np_zeros shape) [] None)
    as (a' & E2 & E1 & Ha'); subst h1; rewrite ?lookup_insert_ne by done; try done.
  { by rewrite lookup_insert_eq. }
  rewrite insert_insert_eq in E2.
  exists a'. unfold get_full_model, get_full_model_loop.
  rewrite stateE_bind_run.
  destruct (for_each _ _ _ _) as [r h2]. cbn [fst snd] in E1, E2. subst r h2.
  destruct (foldM _ _ _) as [st'|e]; cbn [mbind result_bind]; [|done].
  rewrite stateE_bind_run. unfold lift.
  destruct (rl_box st') as [bx|]; cbn; [|done].
  split; [done|]. split; [done|]. intros a bx' [= <- <-]. by apply Ha'.
Qed.

Lemma grad_get_full_model_body_run h chain_grad model centers seds morphs
    g a ss ms cs acc k :
  h !! chain_grad = Some (Store.ObjImage g) ->
  h !! model = Some (Store.ObjImage a) ->
  h !! seds = Some (Store.ObjSeds ss) ->
  h !! morphs = Some (Store.ObjMorphs ms) ->
  h !! centers = Some (Store.ObjCenters cs) ->
  Store.grad_get_full_model_body chain_grad model centers seds morphs acc k h
  = (grad_get_full_model_body g a cs ss ms acc k, h).
Proof.
  intros Hg Ha Hs Hm Hc.
  unfold Store.grad_get_full_model_body, grad_get_full_model_body.
  rewrite stateE_bind_run, (getitem_seds_run h seds ss k Hs).
  destruct (index ss k) as [sd|e]; cbn [mbind result_bind]; [|done].
  rewrite stateE_bind_run, (getitem_morphs_run h morphs ms k Hm).
  destruct (index ms k) as [mo|e]; cbn [mbind result_bind]; [|done].
  rewrite stateE_bind_run, (getitem_centers_run h centers cs k Hc).
  destruct (index cs k) as [ce|e]; cbn [mbind result_bind]; [|done].
  rewrite (stateE_bind_ok _ _ _ _ _ (load_image_run h chain_grad g Hg)).
  rewrite (stateE_bind_ok _ _ _ _ _ (load_image_run h model a Ha)).
  rewrite stateE_bind_run. unfold lift.
  by destruct (grad_get_component_model g a sd mo ce).
Qed.

Lemma grad_get_full_model_loop_run h chain_grad model centers seds morphs
    g a ss ms cs l acc :
  h !! chain_grad = Some (Store.ObjImage g) ->
  h !! model = Some (Store.ObjImage a) ->
  h !! seds = Some (Store.ObjSeds ss) ->
  h !! morphs = Some (Store.ObjMorphs ms) ->
  h !! centers = Some (Store.ObjCenters cs) ->
  for_each (Store.grad_get_full_model_body chain_grad model centers seds morphs)
           acc l h
  = (foldM (grad_get_full_model_body g a cs ss ms) acc l, h).
Proof.
  intros Hg Ha Hs Hm Hc. revert acc. induction l as [|k l IH]; intros acc; [done|].
  cbn [for_each foldM].
  rewrite stateE_bind_run,
    (grad_get_full_model_body_run h chain_grad model centers seds morphs
       g a ss ms cs acc k) by done.
  destruct (grad_get_full_model_body g a cs ss ms acc k); cbn [mbind result_bind];
    [apply IH|done].
Qed.

(** The whole pipeline over the store: its result is the one of the
    pipeline on the values of its arguments, and every object of the
    initial store is still there, unchanged. *)
Lemma calculate_gradients_direct_run h images centers seds morphs img cs ss ms :
  h !! images = Some (Store.ObjImage img) ->
  h !! centers = Some (Store.ObjCenters cs) ->
  h !! seds = Some (Store.ObjSeds ss) ->
  h !! morphs = Some (Store.ObjMorphs ms) ->
  fst (Store.calculate_gradients_direct images centers seds morphs h)
  = calculate_gradients_direct img cs ss ms /\
  h ⊆ snd (Store.calculate_gradients_direct images centers seds morphs h).
Proof.
  intros Hi Hc Hs Hm.
  assert (h !! fresh (dom h) = None) as Hfresh
    by apply not_elem_of_dom, is_fresh.
  destruct (Store.calculate_gradients_direct images centers seds morphs h)
    as [r h'] eqn:E.
  cbn [fst snd]. revert E.
  unfold Store.calculate_gradients_direct, calculate_gradients_direct.
  rewrite (stateE_bind_ok _ _ _ _ _ (load_image_run h images img Hi)).
  rewrite stateE_bind_run.
  destruct (get_full_model_run h seds morphs centers ss ms cs (shape3 img))
    as (a' & E2 & E1 & Ha'); [done..|].
  destruct (Store.get_full_model seds morphs centers (shape3 img) h) as [r1 h1].
  cbn [fst snd] in E1, E2. subst r1 h1.
  set (model := fresh (dom h)) in *.
  assert (h ⊆ <[model := Store.ObjImage a']> h) as Hsub1
    by (by apply insert_subseteq).
  destruct (get_full_model ss ms cs (shape3 img)) as [[a bx]|e];
    cbn [mbind result_bind]; [|by intros [= <- <-]].
  rewrite (Ha' a bx eq_refl) in *. clear Ha'.
  set (h1 := <[model := Store.ObjImage a]> h) in *.
  assert (h1 !! model = Some (Store.ObjImage a)) as Hmodel
    by (subst h1; by rewrite lookup_insert_eq).
  rewrite stateE_bind_run. unfold Store.grad_logL.
  rewrite (stateE_bind_ok _ _ h1 img h1)
    by (apply load_image_run; by eapply lookup_weaken).
  rewrite (stateE_bind_ok _ _ h1 a h1) by (by apply load_image_run).
  rewrite stateE_bind_run. unfold lift at 1.
  destruct (grad_logL img a num_one) as [g|e]; cbn [mbind result_bind];
    [|by intros [= <- <-]].
  assert (h1 !! fresh (dom h1) = None) as Hfresh1
    by apply not_elem_of_dom, is_fresh.
  unfold Store.alloc. cbn zeta.
  set (gl := fresh (dom h1)) in *.
  assert (h1 ⊆ <[gl := Store.ObjImage g]> h1) as Hsub2
    by (by apply insert_subseteq).
  set (h2 := <[gl := Store.ObjImage g]> h1) in *.
  unfold Store.grad_get_full_model, grad_get_full_model.
  rewrite (stateE_bind_ok _ _ h2 cs h2)
    by (apply load_centers_run; eapply lookup_weaken; [|exact Hsub2];
        by eapply lookup_weaken).
  rewrite (grad_get_full_model_loop_run h2 gl model centers seds morphs g a ss ms cs).
  - intros [= <- <-]. split; [done|]. by transitivity h1.
  - subst h2. by rewrite lookup_insert_eq.
  - by eapply lookup_weaken.
  - eapply lookup_weaken; [|exact Hsub2]. by eapply lookup_weaken.
  - eapply lookup_weaken; [|exact Hsub2]. by eapply lookup_weaken.
  - eapply lookup_weaken; [|exact Hsub2]. by eapply lookup_weaken.
Qed.

End StoreFacts.

Section Frame.
Context {T : Type} `{Num T}.

(** C9. [calculate_gradients_direct] leaves its four arguments as they
    were: the model is accumulated into a newly allocated array, and no
    object that existed before the call is written to. This holds
    whether the call returns or raises. *)
Theorem C9_inputs_unchanged (h : gmap positive (Store.object (T:=T)))
    (images centers seds morphs : positive)
    (img : ndarray3 T) (cs : list (Z * Z)) (ss : list (list T))
    (ms : list (ndarray2 T)) :
  h !! images = Some (Store.ObjImage img) ->
  h !! centers = Some (Store.ObjCenters cs) ->
  h !! seds = Some (Store.ObjSeds ss) ->
  h !! morphs = Some (Store.ObjMorphs ms) ->
  let h' := snd (Store.calculate_gradients_direct images centers seds morphs h) in
  h' !! images = Some (Store.ObjImage img) /\
  h' !! centers = Some (Store.ObjCenters cs) /\
  h' !! seds = Some (Store.ObjSeds ss) /\
  h' !! morphs = Some (Store.ObjMorphs ms) /\
  h ⊆ h'.
Proof.
  intros Hi Hc Hs Hm h'.
  destruct (calculate_gradients_direct_run h images centers seds morphs
              img cs ss ms Hi Hc Hs Hm) as [_ Hsub].
  fold h' in Hsub.
  repeat split; try done; by eapply lookup_weaken.
Qed.

End Frame.

Lemma C9_inputs_unchanged_witness :
  let h' := snd (Store.calculate_gradients_direct 1 2 3 4 sample_store) in
  h' !! 1%positive = Some (Store.ObjImage sample_data) /\
  h' !! 2%positive = Some (Store.ObjCenters (centers_of two_components)) /\
  h' !! 3%positive = Some (Store.ObjSeds (seds_of two_components)) /\
  h' !! 4%positive = Some (Store.ObjMorphs (morphs_of two_components)) /\
  sample_store ⊆ h'.
Proof.
  apply (C9_inputs_unchanged sample_store 1 2 3 4); reflexivity.
Defined.

(** ** Rendering, pixel by pixel *)

Section Pixels.
Context {T : Type} `{Num T}.
Implicit Types (comps : list (component T)) (c : component T).

Lemma tab3_ext b n m (f g : nat -> nat -> nat -> T) :
  (forall ch i j, (ch < b)%nat -> (i < n)%nat -> (j < m)%nat ->
     f ch i j = g ch i j) ->
  tab3 b n m f = tab3 b n m g.
Proof.
  intros Hfg. unfold tab3, tab2, tab1. cbn. f_equal.
  apply map_ext_in; intros ch Hch%in_seq.
  apply map_ext_in; intros i Hi%in_seq.
  apply map_ext_in; intros j Hj%in_seq.
  apply Hfg; lia.
Qed.

Lemma wf3_tab3 b n m (f : nat -> nat -> nat -> T) : wf3 (tab3 b n m f).
Proof.
  unfold wf3. rewrite shape3_tab3. cbn [fst snd].
  apply tab3_ext. intros ch i j Hch Hi Hj. by rewrite get3_tab3.
Qed.

Lemma wf3_np_zeros shape : wf3 (np_zeros (T:=T) shape).
Proof. destruct shape as [[b n] m]. apply wf3_tab3. Qed.

Lemma render_component_pixel b n m st c :
  shape3 (rl_model st) = (b, n, m) ->
  component_ok (b, n, m) c ->
  exists st', render_component st c = Ok st' /\
    shape3 (rl_model st') = (b, n, m) /\
    wf3 (rl_model st') /\
    forall ch i j, (ch < b)%nat -> (i < n)%nat -> (j < m)%nat ->
      get3 (rl_model st') ch i j
      = if covers c i j
        then get3 (rl_model st) ch i j +! contribution c ch i j
        else get3 (rl_model st) ch i j.
Proof.
  intros Hsh (Hlen & Hm & [Hy1 Hy2] & [Hx1 Hx2]).
  unfold render_component, get_component_model, covers, contribution.
  destruct (center c) as [y x]; cbn [fst snd] in *.
  unfold iadd_box. rewrite Hsh. cbn [fst snd].
  rewrite !slice_indices_inside by done.
  rewrite shape3_outer, Hm, Hlen; cbn [fst snd].
  rewrite !fits_same. cbn [andb raise_unless mbind result_bind].
  eexists; split; [done|]. cbn [rl_model].
  split; [done|]. split; [apply wf3_tab3|].
  intros ch i j Hch Hi Hj. rewrite get3_tab3 by done.
  destruct (_ && _) eqn:Hcov; [|done].
  f_equal. rewrite bidx_lt by done.
  apply andb_prop in Hcov as [Hcov H4]. apply andb_prop in Hcov as [Hcov H3].
  apply andb_prop in Hcov as [H1 H2].
  apply Nat.leb_le in H1, H3. apply Nat.ltb_lt in H2, H4.
  unfold outer. rewrite Hm. unfold bidx; cbn [Nat.eqb].
  rewrite get3_tab3; [done|lia..].
Qed.

Lemma render_components_pixel b n m comps st :
  shape3 (rl_model st) = (b, n, m) ->
  Forall (component_ok (b, n, m)) comps ->
  exists st', foldM render_component st comps = Ok st' /\
    shape3 (rl_model st') = (b, n, m) /\
    (wf3 (rl_model st) -> wf3 (rl_model st')) /\
    forall ch i j, (ch < b)%nat -> (i < n)%nat -> (j < m)%nat ->
      get3 (rl_model st') ch i j
      = pixel_after comps ch i j (get3 (rl_model st) ch i j).
Proof.
  intros Hsh Hok. revert st Hsh.
  induction Hok as [|c comps Hc Hok IH]; intros st Hsh.
  - by exists st.
  - destruct (render_component_pixel b n m st c Hsh Hc)
      as (st1 & E1 & Hsh1 & Hwf1 & Hpx1).
    destruct (IH st1 Hsh1) as (st' & E' & Hsh' & Hwf' & Hpx').
    exists st'. cbn [foldM]. rewrite E1. cbn [mbind result_bind].
    split; [done|]. split; [done|]. split; [auto|].
    intros ch i j Hch Hi Hj. rewrite Hpx' by done.
    unfold pixel_after. cbn [fold_left]. by rewrite Hpx1.
Qed.

(** The rendered image, pixel by pixel. *)
Lemma get_full_model_pixel b n m comps c0 :
  Forall (component_ok (b, n, m)) comps ->
  last comps = Some c0 ->
  exists model,
    get_full_model (seds_of comps) (morphs_of comps) (centers_of comps) (b, n, m)
    = Ok (model, center_box (center c0)) /\
    shape3 model = (b, n, m) /\
    wf3 model /\
    forall ch i j, (ch < b)%nat -> (i < n)%nat -> (j < m)%nat ->
      get3 model ch i j = pixel_after comps ch i j num_zero.
Proof.
  intros Hok Hlast.
  destruct (get_full_model_ok (b, n, m) comps c0 Hok Hlast) as (model & E & Eloop & Hsh).
  exists model. split; [done|]. split; [done|].
  rewrite get_full_model_loop_comps in Eloop.
  destruct (render_components_pixel b n m comps
              (RenderLocals (np_zeros (b, n, m)) [] None))
    as (st' & E' & _ & Hwf & Hpx); [done|done|].
  rewrite Eloop in E'. injection E' as <-. cbn [rl_model] in *.
  split; [apply Hwf, wf3_np_zeros|].
  intros ch i j Hch Hi Hj. rewrite Hpx by done. by rewrite get3_np_zeros.
Qed.

Lemma pixel_after_app comps1 comps2 ch i j (v : T) :
  pixel_after (comps1 ++ comps2) ch i j v
  = pixel_after comps2 ch i j (pixel_after comps1 ch i j v).
Proof. unfold pixel_after. apply fold_left_app. Qed.

Lemma pixel_after_uncovered comps ch i j (v : T) :
  Forall (fun c => covers c i j = false) comps ->
  pixel_after comps ch i j v = v.
Proof.
  intros Hun. revert v. induction Hun as [|c comps Hc Hun IH]; intros v; [done|].
  unfold pixel_after. cbn [fold_left]. rewrite Hc. apply IH.
Qed.

Lemma apart_covers shape1 shape2 (a b0 : component T) i j :
  component_ok shape1 a -> component_ok shape2 b0 -> apart a b0 ->
  covers a i j = true -> covers b0 i j = false.
Proof.
  intros (_ & _ & [Hay _] & [Hax _]) (_ & _ & [Hby _] & [Hbx _]) Hap Hcov.
  unfold covers in *.
  apply andb_prop in Hcov as [Hcov H4]. apply andb_prop in Hcov as [Hcov H3].
  apply andb_prop in Hcov as [H1 H2].
  apply Nat.leb_le in H1, H3. apply Nat.ltb_lt in H2, H4.
  unfold apart in Hap.
  destruct (Nat.leb_spec (Z.to_nat (fst (center b0) - 1)) i);
    destruct (Nat.ltb_spec i (Z.to_nat (fst (center b0) - 1) + 3));
    destruct (Nat.leb_spec (Z.to_nat (snd (center b0) - 1)) j);
    destruct (Nat.ltb_spec j (Z.to_nat (snd (center b0) - 1) + 3));
    cbn; try done; lia.
Qed.

End Pixels.

(** ** Rendering is additive over separated components *)

Section Linearity.
Context {T : Type} `{Num T}.
Implicit Types (comps : list (component T)) (c : component T).

(** Zero is neutral for the addition of the elements, as in exact
    arithmetic. *)
Hypothesis add_zero_l : forall x : T, num_zero +! x = x.
Hypothesis add_zero_r : forall x : T, x +! num_zero = x.

Lemma pixel_after_separated b n m (A B : list (component T)) ch i j :
  Forall (component_ok (b, n, m)) A ->
  Forall (component_ok (b, n, m)) B ->
  Forall (fun a => Forall (apart a) B) A ->
  pixel_after (A ++ B) ch i j num_zero
  = pixel_after A ch i j num_zero +! pixel_after B ch i j num_zero.
Proof using add_zero_l add_zero_r.
  intros HA HB Hap. rewrite pixel_after_app.
  destruct (decide (Exists (fun c => covers c i j = true) B)) as [Hex|Hno].
  - apply Exists_exists in Hex as (b0 & Hb0 & Hcov).
    rewrite (pixel_after_uncovered A).
    + by rewrite add_zero_l.
    + apply Forall_forall. intros a Ha.
      destruct (covers a i j) eqn:Ea; [|done].
      assert (apart a b0) as Hab.
      { pose proof (proj1 (Forall_forall _ _) Hap a Ha) as HaB.
        exact (proj1 (Forall_forall _ _) HaB b0 Hb0). }
      rewrite (apart_covers (b, n, m) (b, n, m) a b0 i j) in Hcov; try done.
      * exact (proj1 (Forall_forall _ _) HA a Ha).
      * exact (proj1 (Forall_forall _ _) HB b0 Hb0).
  - apply not_Exists_Forall in Hno; [|apply _].
    assert (Forall (fun c => covers c i j = false) B) as HunB.
    { eapply Forall_impl; [exact Hno|]. cbn. intros c Hc.
      by destruct (covers c i j). }
    rewrite !(pixel_after_uncovered B) by done. by rewrite add_zero_r.
Qed.

(** For two non-empty lists of components that fit the image and whose
    windows are separated, the image of the concatenation is the
    elementwise sum of the two images. *)
Theorem render_linear_nonempty b n m (A B : list (component T)) a0 b0 :
  Forall (component_ok (b, n, m)) A ->
  Forall (component_ok (b, n, m)) B ->
  Forall (fun a => Forall (apart a) B) A ->
  last A = Some a0 -> last B = Some b0 ->
  exists imgA imgB imgAB,
    get_full_model (seds_of A) (morphs_of A) (centers_of A) (b, n, m)
    = Ok (imgA, center_box (center a0)) /\
    get_full_model (seds_of B) (morphs_of B) (centers_of B) (b, n, m)
    = Ok (imgB, center_box (center b0)) /\
    get_full_model (seds_of (A ++ B)) (morphs_of (A ++ B)) (centers_of (A ++ B))
                   (b, n, m)
    = Ok (imgAB, center_box (center b0)) /\
    np_binop num_add imgA imgB = Ok imgAB.
Proof using add_zero_l add_zero_r.
  intros HA HB Hap HlA HlB.
  destruct (get_full_model_pixel b n m A a0 HA HlA) as (imgA & EA & HshA & _ & HpA).
  destruct (get_full_model_pixel b n m B b0 HB HlB) as (imgB & EB & HshB & _ & HpB).
  destruct (get_full_model_pixel b n m (A ++ B) b0)
    as (imgAB & EAB & HshAB & HwfAB & HpAB).
  { by apply Forall_app. }
  { by rewrite last_app, HlB. }
  exists imgA, imgB, imgAB. split; [done|]. split; [done|]. split; [done|].
  unfold np_binop. rewrite HshA, HshB, !bdim_same.
  cbn [of_option mbind result_bind]. f_equal.
  unfold wf3 in HwfAB. rewrite HshAB in HwfAB. cbn [fst snd] in HwfAB.
  rewrite HwfAB. apply tab3_ext. intros ch i j Hch Hi Hj.
  rewrite !bidx_lt by done.
  rewrite HpA, HpB, HpAB by done.
  symmetry. by apply (pixel_after_separated b n m).
Qed.

End Linearity.

(** In exact integers, on the two sample components. *)
Example render_linear_sample :
  exists imgA imgB imgAB,
    get_full_model (seds_of [first_component]) (morphs_of [first_component])
                   (centers_of [first_component]) (1, 7, 7)%nat
    = Ok (imgA, center_box (center first_component)) /\
    get_full_model (seds_of [second_component]) (morphs_of [second_component])
                   (centers_of [second_component]) (1, 7, 7)%nat
    = Ok (imgB, center_box (center second_component)) /\
    get_full_model (seds_of two_components) (morphs_of two_components)
                   (centers_of two_components) (1, 7, 7)%nat
    = Ok (imgAB, center_box (center second_component)) /\
    np_binop num_add imgA imgB = Ok imgAB.
Proof.
  apply (render_linear_nonempty (T:=Z) (H:=Z_Num) Z.add_0_l Z.add_0_r 1 7 7
           [first_component] [second_component]).
  - repeat constructor; cbn; lia.
  - repeat constructor; cbn; lia.
  - constructor; [|constructor]. constructor; [|constructor].
    left. cbn. lia.
  - reflexivity.
  - reflexivity.
Qed.

(** C6. Rendering nothing raises, so the image of an empty list [A]
    does not exist and cannot be added to the image of [B], although
    the concatenation of [A] and [B] renders. *)
Theorem C6_empty_part_raises :
  get_full_model (T:=Z) (seds_of []) (morphs_of []) (centers_of (T:=Z) [])
                 (1, 7, 7)%nat
  = Err UnboundLocalError /\
  is_ok (get_full_model (seds_of two_components) (morphs_of two_components)
           (centers_of two_components) (1, 7, 7)%nat) = true /\
  is_ok (get_full_model (seds_of ([] ++ two_components))
           (morphs_of ([] ++ two_components))
           (centers_of ([] ++ two_components)) (1, 7, 7)%nat) = true.
Proof. repeat split. Qed.

(** * Further properties of the notebook's functions *)

(** ** The rendered model, pixel by pixel *)

Section ModelPixels.
Context {T : Type} `{Num T}.
Implicit Types (comps : list (component T)) (c : component T).

(** X1. For a non-empty list of components that fit the image, every
    pixel of the model [get_full_model] returns is zero plus, in
    component order, [sed[ch] * morph[i-(y-1), j-(x-1)]] for each
    component whose window holds the pixel; a pixel in no window is
    zero. *)
Theorem X1_model_pixels b n m comps c0 :
  Forall (component_ok (b, n, m)) comps ->
  last comps = Some c0 ->
  exists model bx,
    get_full_model (seds_of comps) (morphs_of comps) (centers_of comps) (b, n, m)
    = Ok (model, bx) /\
    shape3 model = (b, n, m) /\
    forall ch i j, (ch < b)%nat -> (i < n)%nat -> (j < m)%nat ->
      get3 model ch i j = pixel_after comps ch i j num_zero /\
      (Forall (fun c => covers c i j = false) comps ->
       get3 model ch i j = num_zero).
Proof.
  intros Hok Hlast.
  destruct (get_full_model_pixel b n m comps c0 Hok Hlast)
    as (model & E & Hsh & _ & Hpx).
  exists model, (center_box (center c0)). split; [done|]. split; [done|].
  intros ch i j Hch Hi Hj. split; [by apply Hpx|].
  intros Hun. rewrite Hpx by done. by apply pixel_after_uncovered.
Qed.

(** X2. With zero neutral for the addition of the elements, the model of
    the concatenation of two non-empty lists of fitting components whose
    windows are separated is the elementwise sum of their two models. *)
Theorem X2_render_additive
    (add_zero_l : forall x : T, num_zero +! x = x)
    (add_zero_r : forall x : T, x +! num_zero = x)
    b n m (A B : list (component T)) a0 b0 :
  Forall (component_ok (b, n, m)) A ->
  Forall (component_ok (b, n, m)) B ->
  Forall (fun a => Forall (apart a) B) A ->
  last A = Some a0 -> last B = Some b0 ->
  exists imgA imgB imgAB bxA bxB bxAB,
    get_full_model (seds_of A) (morphs_of A) (centers_of A) (b, n, m)
    = Ok (imgA, bxA) /\
    get_full_model (seds_of B) (morphs_of B) (centers_of B) (b, n, m)
    = Ok (imgB, bxB) /\
    get_full_model (seds_of (A ++ B)) (morphs_of (A ++ B)) (centers_of (A ++ B))
                   (b, n, m)
    = Ok (imgAB, bxAB) /\
    np_binop num_add imgA imgB = Ok imgAB.
Proof.
  intros HA HB Hap HlA HlB.
  destruct (render_linear_nonempty add_zero_l add_zero_r b n m A B a0 b0
              HA HB Hap HlA HlB) as (imgA & imgB & imgAB & EA & EB & EAB & Esum).
  by exists imgA, imgB, imgAB, (center_box (center a0)),
            (center_box (center b0)), (center_box (center b0)).
Qed.

End ModelPixels.

Lemma X1_model_pixels_witness :
  exists model bx,
    get_full_model (seds_of two_components) (morphs_of two_components)
                   (centers_of two_components) (1, 7, 7)%nat
    = Ok (model, bx) /\
    shape3 model = (1, 7, 7)%nat /\
    forall ch i j, (ch < 1)%nat -> (i < 7)%nat -> (j < 7)%nat ->
      get3 model ch i j = pixel_after two_components ch i j num_zero /\
      (Forall (fun c => covers c i j = false) two_components ->
       get3 model ch i j = num_zero).
Proof.
  apply (X1_model_pixels 1 7 7 two_components second_component).
  - repeat constructor; cbn; lia.
  - reflexivity.
Defined.

Lemma X2_render_additive_witness :
  exists imgA imgB imgAB bxA bxB bxAB,
    get_full_model (seds_of [first_component]) (morphs_of [first_component])
                   (centers_of [first_component]) (1, 7, 7)%nat
    = Ok (imgA, bxA) /\
    get_full_model (seds_of [second_component]) (morphs_of [second_component])
                   (centers_of [second_component]) (1, 7, 7)%nat
    = Ok (imgB, bxB) /\
    get_full_model (seds_of ([first_component] ++ [second_component]))
                   (morphs_of ([first_component] ++ [second_component]))
                   (centers_of ([first_component] ++ [second_component]))
                   (1, 7, 7)%nat
    = Ok (imgAB, bxAB) /\
    np_binop num_add imgA imgB = Ok imgAB.
Proof.
  apply (X2_render_additive (T:=Z) (H:=Z_Num) Z.add_0_l Z.add_0_r 1 7 7
           [first_component] [second_component] first_component second_component).
  - repeat constructor; cbn; lia.
  - repeat constructor; cbn; lia.
  - constructor; [|constructor]. constructor; [|constructor].
    left. cbn. lia.
  - reflexivity.
  - reflexivity.
Defined.

(** ** Lists of unequal lengths *)

Section Lengths.
Context {T : Type} `{Num T}.
Implicit Types (comps : list (component T)) (c : component T).

Lemma foldM_ext_in {A S} (f g : S -> A -> result S) (l : list A) (s : S) :
  (forall st a, In a l -> f st a = g st a) ->
  foldM f s l = foldM g s l.
Proof.
  revert s. induction l as [|a l IH]; intros s Hfg; [done|].
  cbn [foldM]. rewrite Hfg by (by left).
  destruct (g s a) as [s'|e]; cbn [mbind result_bind]; [|done].
  apply IH. intros st a' Ha'. apply Hfg. by right.
Qed.

Lemma foldM_app {A S} (f : S -> A -> result S) (l1 l2 : list A) (s : S) :
  foldM f s (l1 ++ l2) = foldM f s l1 ≫= fun s' => foldM f s' l2.
Proof.
  revert s. induction l1 as [|a l1 IH]; intros s; [done|].
  cbn [foldM app]. destruct (f s a) as [s'|e]; cbn [mbind result_bind]; [|done].
  apply IH.
Qed.

Lemma index_app_l {A} (l1 l2 : list A) (k : nat) :
  (k < length l1)%nat -> index (l1 ++ l2) k = index l1 k.
Proof. intros Hk. unfold index. by rewrite lookup_app_l. Qed.

Lemma index_ge {A} (l : list A) (k : nat) :
  (length l <= k)%nat -> index l k = Err IndexError.
Proof. intros Hk. unfold index. by rewrite lookup_ge_None_2. Qed.

(** The rendering loop reads the first [len(seds)] entries only. *)
Lemma get_full_model_body_app (ss ss' : list (list T))
    (ms ms' : list (ndarray2 T)) (cs cs' : list (Z * Z)) st k :
  (k < length ss)%nat -> (k < length ms)%nat -> (k < length cs)%nat ->
  get_full_model_body (ss ++ ss') (ms ++ ms') (cs ++ cs') st k
  = get_full_model_body ss ms cs st k.
Proof.
  intros Hs Hm Hc. unfold get_full_model_body.
  by rewrite !index_app_l.
Qed.

Lemma grad_get_full_model_body_app g mdl (ss ss' : list (list T))
    (ms ms' : list (ndarray2 T)) (cs cs' : list (Z * Z)) acc k :
  (k < length ss)%nat -> (k < length ms)%nat -> (k < length cs)%nat ->
  grad_get_full_model_body g mdl (cs ++ cs') (ss ++ ss') (ms ++ ms') acc k
  = grad_get_full_model_body g mdl cs ss ms acc k.
Proof.
  intros Hs Hm Hc. unfold grad_get_full_model_body.
  by rewrite !index_app_l.
Qed.

Lemma render_prefix comps (ss : list (list T)) (ms : list (ndarray2 T))
    (cs : list (Z * Z)) st :
  foldM (get_full_model_body (seds_of comps ++ ss) (morphs_of comps ++ ms)
                             (centers_of comps ++ cs))
        st (seq 0 (length comps))
  = foldM render_component st comps.
Proof.
  rewrite <- (get_full_model_loop_from [] comps st). cbn [app length].
  apply foldM_ext_in. intros st' k Hk%in_seq.
  apply get_full_model_body_app;
    unfold seds_of, morphs_of, centers_of; rewrite length_map; lia.
Qed.

Lemma grad_prefix g mdl comps (ss : list (list T)) (ms : list (ndarray2 T))
    (cs : list (Z * Z)) acc :
  foldM (grad_get_full_model_body g mdl (centers_of comps ++ cs)
                                  (seds_of comps ++ ss) (morphs_of comps ++ ms))
        acc (seq 0 (length comps))
  = foldM (grad_component g mdl) acc comps.
Proof.
  rewrite <- (grad_get_full_model_from g mdl [] comps acc). cbn [app length].
  apply foldM_ext_in. intros st' k Hk%in_seq.
  apply grad_get_full_model_body_app;
    unfold seds_of, morphs_of, centers_of; rewrite length_map; lia.
Qed.

Lemma get_full_model_surplus comps (ms : list (ndarray2 T)) (cs : list (Z * Z))
    (shape : nat * nat * nat) :
  get_full_model (seds_of comps) (morphs_of comps ++ ms) (centers_of comps ++ cs)
                 shape
  = get_full_model (seds_of comps) (morphs_of comps) (centers_of comps) shape.
Proof.
  unfold get_full_model. rewrite get_full_model_loop_comps.
  unfold get_full_model_loop.
  replace (length (seds_of comps)) with (length comps)
    by (unfold seds_of; by rewrite length_map).
  rewrite <- (app_nil_r (seds_of comps)). by rewrite render_prefix.
Qed.

(** X3. [get_full_model] loops over [range(len(seds))]: entries of
    [morphs] and [centers] beyond that length are never read, so
    appending any to them changes neither the result nor the error. *)
Theorem X3_surplus_ignored comps (ms : list (ndarray2 T)) (cs : list (Z * Z))
    (shape : nat * nat * nat) :
  get_full_model (seds_of comps) (morphs_of comps ++ ms) (centers_of comps ++ cs)
                 shape
  = get_full_model (seds_of comps) (morphs_of comps) (centers_of comps) shape.
Proof. apply get_full_model_surplus. Qed.

(** X4. When [centers] has fewer entries than [seds], and the
    components it does describe fit the image, [get_full_model] raises
    [IndexError] at the first index without a center, whatever [morphs]
    holds from there on. *)
Theorem X4_missing_center_raises comps (sd : list T) (ss : list (list T))
    (ms : list (ndarray2 T)) (shape : nat * nat * nat) :
  Forall (component_ok shape) comps ->
  get_full_model (seds_of comps ++ sd :: ss) (morphs_of comps ++ ms)
                 (centers_of comps) shape
  = Err IndexError.
Proof.
  intros Hok. unfold get_full_model, get_full_model_loop.
  rewrite length_app. cbn [length].
  replace (length (seds_of comps) + S (length ss))%nat
    with (length comps + S (length ss))%nat
    by (unfold seds_of; by rewrite length_map).
  rewrite seq_app, foldM_app. cbn [Nat.add seq foldM].
  rewrite <- (app_nil_r (centers_of comps)). rewrite render_prefix.
  destruct (render_components_ok shape comps
              (RenderLocals (np_zeros shape) [] None)) as (st & E & _);
    [apply shape3_np_zeros|done|].
  rewrite E. cbn [mbind result_bind].
  assert (get_full_model_body (seds_of comps ++ sd :: ss) (morphs_of comps ++ ms)
            (centers_of comps ++ []) st (length comps) = Err IndexError) as ->;
    [|done].
  unfold get_full_model_body. rewrite app_nil_r.
  rewrite (index_ge (centers_of comps))
    by (unfold centers_of; by rewrite length_map).
  rewrite <- (length_map sed comps) at 1. fold (seds_of comps).
  rewrite index_app_middle. cbn [mbind result_bind].
  unfold index. by destruct ((morphs_of comps ++ ms) !! length comps).
Qed.

(** X5. The gradient loop runs over [range(len(centers))] while the
    rendering loop runs over [range(len(seds))]: with more centers than
    seds, the components that have a sed are rendered, and
    [calculate_gradients_direct] then raises [IndexError] at the first
    center without a sed. *)
Theorem X5_surplus_center_raises comps c0 (ctr : Z * Z) (cs : list (Z * Z))
    (data : ndarray3 T) :
  Forall (component_ok (shape3 data)) comps ->
  last comps = Some c0 ->
  is_ok (get_full_model (seds_of comps) (morphs_of comps)
           (centers_of comps ++ ctr :: cs) (shape3 data)) = true /\
  calculate_gradients_direct data (centers_of comps ++ ctr :: cs)
    (seds_of comps) (morphs_of comps) = Err IndexError.
Proof.
  intros Hok Hlast.
  pose proof (get_full_model_surplus comps [] (ctr :: cs) (shape3 data)) as Esur.
  rewrite app_nil_r in Esur.
  destruct (get_full_model_ok _ _ _ Hok Hlast) as (model & Em & _ & Hsh).
  rewrite <- Esur in Em. split; [by rewrite Em|].
  unfold calculate_gradients_direct. rewrite Em. cbn [mbind result_bind].
  destruct (grad_logL_same_shape data model num_one Hsh) as (gL & EgL & HshL & _).
  rewrite EgL. cbn [mbind result_bind].
  destruct (grad_components_ok _ gL model comps HshL Hok) as (rs & Hrs).
  unfold grad_get_full_model. rewrite length_app. cbn [length].
  replace (length (centers_of comps) + S (length cs))%nat
    with (length comps + S (length cs))%nat
    by (unfold centers_of; by rewrite length_map).
  rewrite seq_app, foldM_app. cbn [Nat.add seq foldM].
  pose proof (grad_prefix gL model comps [] [] (ctr :: cs) ([], [])) as Epre.
  rewrite !app_nil_r in Epre. rewrite Epre.
  rewrite (grad_components_collect gL model comps rs) by done.
  cbn [mbind result_bind].
  assert (forall acc, grad_get_full_model_body gL model
            (centers_of comps ++ ctr :: cs) (seds_of comps) (morphs_of comps)
            acc (length comps) = Err IndexError) as ->; [|done].
  intros acc. unfold grad_get_full_model_body.
  by rewrite (index_ge (seds_of comps))
    by (unfold seds_of; by rewrite length_map).
Qed.

(** *** What the gradient of a component reads *)

(** X6. The gradient of a component reads the incoming gradient inside
    the component's window only: two incoming gradients of the image's
    shape that agree on the window give the same sed and morph
    gradients. *)
Theorem X6_gradient_local shape (g1 g2 m1 m2 : ndarray3 T) c :
  shape3 g1 = shape -> shape3 g2 = shape ->
  component_ok shape c ->
  (forall ch i j, (ch < fst (fst shape))%nat -> (i < 3)%nat -> (j < 3)%nat ->
     get3 g1 ch (window_index (fst (center c)) i) (window_index (snd (center c)) j)
     = get3 g2 ch (window_index (fst (center c)) i)
                  (window_index (snd (center c)) j)) ->
  grad_get_component_model g1 m1 (sed c) (morph c) (center c)
  = grad_get_component_model g2 m2 (sed c) (morph c) (center c).
Proof.
  destruct shape as [[b n] m]. intros Hs1 Hs2 (_ & _ & [Hy1 Hy2] & [Hx1 Hx2]) Hag.
  unfold grad_get_component_model.
  destruct (center c) as [y x]; cbn [fst snd] in *.
  assert (getitem_box g1 (Slice (y - 1) (y + 2), Slice (x - 1) (x + 2))
          = getitem_box g2 (Slice (y - 1) (y + 2), Slice (x - 1) (x + 2))) as ->;
    [|done].
  unfold getitem_box. rewrite Hs1, Hs2. cbn [fst snd].
  rewrite !slice_indices_inside by done.
  apply tab3_ext. intros ch i j Hch Hi Hj. by apply Hag.
Qed.

End Lengths.

Lemma X4_missing_center_raises_witness :
  get_full_model (seds_of two_components ++ [[5]; [7]])
                 (morphs_of two_components ++ [unit_morph])
                 (centers_of two_components) (1, 7, 7)%nat
  = Err IndexError.
Proof.
  apply (X4_missing_center_raises two_components [5] [[7]] [unit_morph]
           (1, 7, 7)%nat).
  repeat constructor; cbn; lia.
Defined.

Lemma X5_surplus_center_raises_witness :
  is_ok (get_full_model (seds_of two_components) (morphs_of two_components)
           (centers_of two_components ++ [(3, 3)]) (shape3 sample_data)) = true /\
  calculate_gradients_direct sample_data (centers_of two_components ++ [(3, 3)])
    (seds_of two_components) (morphs_of two_components) = Err IndexError.
Proof.
  apply (X5_surplus_center_raises two_components second_component (3, 3) []
           sample_data).
  - change (shape3 sample_data) with (1, 7, 7)%nat.
    repeat constructor; cbn; lia.
  - reflexivity.
Defined.

Lemma X6_gradient_local_witness :
  grad_get_component_model sample_data sample_data
    (sed first_component) (morph first_component) (center first_component)
  = grad_get_component_model
      (tab3 1 7 7 (fun c i j => if (i <? 4)%nat then Z.of_nat (i + j) else 0))
      (np_zeros (1, 7, 7)%nat)
      (sed first_component) (morph first_component) (center first_component).
Proof.
  apply (X6_gradient_local (1, 7, 7)%nat sample_data
           (tab3 1 7 7 (fun c i j => if (i <? 4)%nat then Z.of_nat (i + j) else 0))
           sample_data (np_zeros (1, 7, 7)%nat) first_component).
  - reflexivity.
  - reflexivity.
  - repeat constructor; cbn; lia.
  - intros ch i j Hch Hi Hj. cbn in Hch.
    destruct ch as [|ch]; [|lia].
    destruct i as [|[|[|i]]]; [| | |lia];
      (destruct j as [|[|[|j]]]; [| | |lia]); reflexivity.
Defined.

(** ** What the scene builder returns *)

Section SceneBuilt.
Context {T : Type} `{Num T} {G : Type} `{!RandomState T G}.

Lemma fill_morphs_from (a u : ndarray2 T) (n k : nat) :
  fold_left (fun ms i => <[i := a]> ms) (seq k n) (repeat a k ++ repeat u n)
  = repeat a (k + n).
Proof.
  revert k. induction n as [|n IH]; intros k.
  - cbn. by rewrite app_nil_r, Nat.add_0_r.
  - cbn [seq fold_left repeat].
    rewrite insert_app_r_alt by (rewrite repeat_length; lia).
    rewrite repeat_length, Nat.sub_diag. cbn [insert list_insert].
    replace (repeat a k ++ a :: repeat u n) with (repeat a (S k) ++ repeat u n).
    + rewrite IH. f_equal. lia.
    + cbn [repeat]. rewrite repeat_cons. by rewrite <- app_assoc.
Qed.

Lemma fill_morphs (K : nat) :
  fold_left (fun ms k => <[k := arange9]> ms) (seq 0 K) (repeat unit_morph K)
  = repeat (arange9 (T:=T)) K.
Proof. apply (fill_morphs_from arange9 unit_morph K 0). Qed.

Lemma iadd_box_inside_pixel (a src : ndarray3 T) (y x : Z) (b n m : nat) :
  shape3 a = (b, n, m) -> shape3 src = (b, 3%nat, 3%nat) ->
  inside y n -> inside x m ->
  exists a', iadd_box a (Slice (y - 1) (y + 2), Slice (x - 1) (x + 2)) src = Ok a' /\
    shape3 a' = (b, n, m) /\ wf3 a' /\
    forall ch i j, (ch < b)%nat -> (i < n)%nat -> (j < m)%nat ->
      get3 a' ch i j
      = if (Z.to_nat (y - 1) <=? i)%nat && (i <? Z.to_nat (y - 1) + 3)%nat
           && (Z.to_nat (x - 1) <=? j)%nat && (j <? Z.to_nat (x - 1) + 3)%nat
        then get3 a ch i j
             +! get3 src ch (i - Z.to_nat (y - 1)) (j - Z.to_nat (x - 1))
        else get3 a ch i j.
Proof.
  intros Ha Hs [Hy1 Hy2] [Hx1 Hx2]. unfold iadd_box. rewrite Ha, Hs. cbn [fst snd].
  rewrite !slice_indices_inside by done. rewrite !fits_same.
  cbn [andb raise_unless mbind result_bind].
  eexists; split; [done|]. split; [done|]. split; [apply wf3_tab3|].
  intros ch i j Hch Hi Hj. rewrite get3_tab3 by done.
  destruct (_ && _); [|done].
  rewrite bidx_lt by done. by unfold bidx; cbn [Nat.eqb].
Qed.

Lemma pixel_after_rev_snoc (built : list (component T)) c ch i j (v : T) :
  pixel_after_rev (built ++ [c]) ch i j v
  = if covers c i j
    then pixel_after_rev built ch i j v +! contribution_rev c ch i j
    else pixel_after_rev built ch i j v.
Proof. unfold pixel_after_rev. by rewrite fold_left_app. Qed.

Lemma shape2_arange9 : shape2 (arange9 (T:=T)) = (3%nat, 3%nat).
Proof. done. Qed.

Lemma lookup_repeat {A} (a : A) (n i : nat) :
  (i < n)%nat -> repeat a n !! i = Some a.
Proof.
  revert i. induction n as [|n IH]; intros i Hi; [lia|].
  destruct i as [|i]; [done|]. cbn. apply IH. lia.
Qed.

Lemma build_scene_body_built (B N M K k : nat) (st : scene T) built (g : G) :
  (8 < N)%nat -> (8 < M)%nat -> (k < K)%nat ->
  scene_built B N M K k st built ->
  exists st' g' c, build_scene_body B st k g = (Ok st', g') /\
    scene_built B N M K (S k) st' (built ++ [c]).
Proof.
  intros HN HM Hk (Hsh & Hwf & Hcs & Hss & Hms & Hlen & Hok & Hread & Hpx).
  unfold build_scene_body. rewrite Hsh. cbn [fst snd].
  destruct (np_random_randint_ok 4 (Z.of_nat N - 4) g) as (cy & g1 & E1 & Hcy); [lia|].
  rewrite (stateE_bind_ok _ _ _ _ _ E1).
  destruct (np_random_randint_ok 4 (Z.of_nat M - 4) g1) as (cx & g2 & E2 & Hcx); [lia|].
  rewrite (stateE_bind_ok _ _ _ _ _ E2).
  destruct (np_random_rand_ok B g2) as (vs & g3 & E3 & Hvs).
  rewrite (stateE_bind_ok _ _ _ _ _ E3).
  set (sd := map (fun s => s *! (num_of_Z 500 /! np_sum vs)) vs).
  assert (length sd = B) as Hsd by (subst sd; by rewrite length_map).
  assert (sc_morphs st !! k = Some arange9) as Emk
    by (rewrite Hms; by apply lookup_repeat).
  unfold index. rewrite Emk.
  rewrite (stateE_bind_ok (lift (Ok arange9)) _ g3 arange9 g3 eq_refl).
  destruct (iadd_box_inside_pixel (sc_images st) (outer_rev arange9 sd)
              cy cx B N M) as (img & E5 & Hsh5 & Hwf5 & Hpx5);
    [done| |split; lia|split; lia|].
  { unfold outer_rev. by rewrite shape2_arange9, shape3_tab3, Hsd. }
  rewrite E5.
  rewrite (stateE_bind_ok (lift (Ok img)) _ g3 img g3 eq_refl).
  set (c := Component sd arange9 (cy, cx)).
  eexists _, g3, c; split; [done|].
  unfold scene_built. cbn [sc_images sc_centers sc_seds sc_morphs].
  split; [done|]. split; [done|].
  rewrite !length_insert. split; [done|]. split; [done|]. split; [done|].
  split; [rewrite length_app; cbn; lia|].
  assert (component_ok (B, N, M) c) as Hc.
  { unfold component_ok, inside, c. cbn [sed morph center fst snd].
    repeat split; try done; lia. }
  split; [apply Forall_app; split; [done|by constructor]|].
  split.
  - intros i c' Hi. destruct (decide (i = k)) as [->|Hne].
    + rewrite lookup_app_r in Hi by lia.
      rewrite Hlen, Nat.sub_diag in Hi. injection Hi as <-.
      rewrite !list_lookup_insert_eq by lia. done.
    + assert (i < k)%nat as Hik.
      { apply lookup_lt_Some in Hi. rewrite length_app in Hi. cbn in Hi. lia. }
      rewrite lookup_app_l in Hi by lia.
      rewrite !list_lookup_insert_ne by done. by apply Hread.
  - intros ch i j Hch Hi Hj. rewrite Hpx5 by done.
    rewrite pixel_after_rev_snoc. rewrite Hpx by done.
    unfold covers, contribution_rev. cbn [center sed morph fst snd c].
    destruct (_ && _) eqn:Hcov; [|done].
    f_equal.
    apply andb_prop in Hcov as [Hcov H4]. apply andb_prop in Hcov as [Hcov H3].
    apply andb_prop in Hcov as [H1 H2].
    apply Nat.leb_le in H1, H3. apply Nat.ltb_lt in H2, H4.
    unfold outer_rev. rewrite shape2_arange9.
    rewrite get3_tab3; [done|lia..].
Qed.

Lemma build_scene_loop_built (B N M K : nat) (n k : nat) (st : scene T) built
    (g : G) :
  (8 < N)%nat -> (8 < M)%nat -> (k + n = K)%nat ->
  scene_built B N M K k st built ->
  exists st' g' built',
    for_each (build_scene_body B) st (seq k n) g = (Ok st', g') /\
    scene_built B N M K K st' built'.
Proof.
  intros HN HM. revert k st built g.
  induction n as [|n IH]; intros k st built g Hkn Hinv.
  - exists st, g, built. split; [done|]. by replace k with K in Hinv by lia.
  - cbn [seq for_each].
    destruct (build_scene_body_built B N M K k st built g)
      as (st1 & g1 & c & E1 & Hinv1); [done|done|lia|done|].
    rewrite (stateE_bind_ok _ _ _ _ _ E1).
    apply (IH (S k) st1 (built ++ [c])); [lia|done].
Qed.

(** The scene as built: the four values returned, and the components
    they describe. *)
Lemma build_scene_built (show_image : ndarray3 T -> option (Z * Z) -> result unit)
    (B N M K : nat) (figsize : option (Z * Z)) (g : G) :
  (8 < N)%nat -> (8 < M)%nat ->
  exists images comps g',
    build_scene show_image (B, N, M) K figsize false g
    = (Ok (images, centers_of comps, seds_of comps, morphs_of comps), g') /\
    length comps = K /\
    shape3 images = (B, N, M) /\ wf3 images /\
    Forall (component_ok (B, N, M)) comps /\
    Forall (fun c => morph c = arange9) comps /\
    forall ch i j, (ch < B)%nat -> (i < N)%nat -> (j < M)%nat ->
      get3 images ch i j = pixel_after_rev comps ch i j num_zero.
Proof.
  intros HN HM. unfold build_scene. rewrite fill_morphs.
  destruct (build_scene_loop_built B N M K K 0
              (Scene (np_zeros (B, N, M)) (repeat (0%Z, 0%Z) K)
                     (repeat (repeat num_zero B) K) (repeat arange9 K)) [] g)
    as (st & g' & comps & E & Hsh & Hwf & Hcs & Hss & Hms & Hlen & Hok & Hread & Hpx);
    [done|done|done| |].
  { split; [done|]. split; [apply wf3_np_zeros|].
    cbn [sc_centers sc_seds sc_morphs sc_images].
    rewrite !repeat_length.
    split; [done|]. split; [done|]. split; [done|]. split; [done|].
    split; [constructor|]. split.
    - intros i c Hi. by rewrite lookup_nil in Hi.
    - intros ch i j _ _ _. apply (get3_np_zeros (B, N, M)). }
  rewrite (stateE_bind_ok _ _ _ _ _ E).
  rewrite stateE_bind_run. unfold lift.
  assert (sc_centers st = centers_of comps) as Ec.
  { apply list_eq. intros i. unfold centers_of. rewrite list_lookup_fmap.
    destruct (comps !! i) as [c|] eqn:Ei; cbn.
    - by apply Hread.
    - apply lookup_ge_None. apply lookup_ge_None in Ei. lia. }
  assert (sc_seds st = seds_of comps) as Es.
  { apply list_eq. intros i. unfold seds_of. rewrite list_lookup_fmap.
    destruct (comps !! i) as [c|] eqn:Ei; cbn.
    - by apply Hread.
    - apply lookup_ge_None. apply lookup_ge_None in Ei. lia. }
  assert (Forall (fun c => morph c = arange9) comps) as Hmor.
  { apply Forall_lookup_2. intros i c Hi. by apply (Hread i c). }
  assert (sc_morphs st = morphs_of comps) as Em.
  { rewrite Hms. apply list_eq. intros i. unfold morphs_of.
    rewrite list_lookup_fmap.
    destruct (comps !! i) as [c|] eqn:Ei; cbn.
    - rewrite lookup_repeat by (apply lookup_lt_Some in Ei; lia).
      f_equal. symmetry. by apply (Hread i c).
    - apply lookup_ge_None. rewrite repeat_length.
      apply lookup_ge_None in Ei. lia. }
  exists (sc_images st), comps, g'. rewrite Ec, Es, Em. done.
Qed.

End SceneBuilt.

Section SceneUse.
Context {T : Type} `{Num T} {G : Type} `{!RandomState T G}.
Implicit Types (comps : list (component T)).

Lemma build_scene_empty (show_image : ndarray3 T -> option (Z * Z) -> result unit)
    (shape : nat * nat * nat) (figsize : option (Z * Z)) (g : G) :
  build_scene show_image shape 0 figsize false g
  = (Ok (np_zeros shape, [], [], []), g).
Proof. by destruct shape as [[B N] M]. Qed.

Lemma build_scene_small (show_image : ndarray3 T -> option (Z * Z) -> result unit)
    (B N M K : nat) (figsize : option (Z * Z)) (show : bool) (g : G) :
  (N <= 8)%nat \/ (M <= 8)%nat ->
  fst (build_scene show_image (B, N, M) (S K) figsize show g) = Err ValueError.
Proof.
  intros Hsmall. unfold build_scene. cbn [seq for_each].
  rewrite !stateE_bind_run.
  unfold build_scene_body at 1. cbn [sc_images].
  rewrite shape3_np_zeros. cbn [fst snd].
  rewrite stateE_bind_run. unfold np_random_randint at 1.
  destruct (Z.ltb_spec 4 (Z.of_nat N - 4)) as [HN|HN]; [|done].
  destruct (rng_randint 4 (Z.of_nat N - 4) g) as [cy g1].
  rewrite stateE_bind_run. unfold np_random_randint at 1.
  destruct (Z.ltb_spec 4 (Z.of_nat M - 4)) as [HM|HM]; [lia|done].
Qed.

(** X7. Without drawing, [build_scene] raises [ValueError] exactly when
    it is asked for at least one component in an image less than 9
    pixels high or wide ([randint]'s range is then empty); it returns
    exactly when K = 0 or both sides exceed 8. *)
Theorem X7_scene_raises (show_image : ndarray3 T -> option (Z * Z) -> result unit)
    (B N M K : nat) (figsize : option (Z * Z)) (g : G) :
  (fst (build_scene show_image (B, N, M) K figsize false g) = Err ValueError
   <-> (0 < K)%nat /\ ((N <= 8)%nat \/ (M <= 8)%nat)) /\
  (is_ok (fst (build_scene show_image (B, N, M) K figsize false g)) = true
   <-> K = 0%nat \/ ((8 < N)%nat /\ (8 < M)%nat)).
Proof.
  destruct K as [|K].
  - rewrite build_scene_empty. cbn.
    split; [split; [done|intros [? _]; lia]|split; [by left|done]].
  - destruct (decide ((N <= 8)%nat \/ (M <= 8)%nat)) as [Hsmall|Hbig].
    + rewrite (build_scene_small show_image B N M K figsize false g Hsmall).
      cbn. split; [split; [intros _; split; [lia|done]|done]|].
      split; [done|intros [?|[? ?]]; lia].
    + assert ((8 < N)%nat /\ (8 < M)%nat) as [HN HM] by lia.
      destruct (build_scene_built show_image B N M (S K) figsize g HN HM)
        as (images & comps & g' & E & _).
      rewrite E. cbn.
      split; [split; [done|intros [_ ?]; lia]|split; [by right|done]].
Qed.

(** X8. For N > 8 and M > 8 the scene returned has an image of the
    shape asked for, K centers, K seds of B entries each, and K
    morphologies every one of which is [arange(9).reshape(3, 3)]: the 1
    written at the centre of each morphology beforehand is
    overwritten. *)
Theorem X8_scene_contents
    (show_image : ndarray3 T -> option (Z * Z) -> result unit)
    (B N M K : nat) (figsize : option (Z * Z)) (g : G) :
  (8 < N)%nat -> (8 < M)%nat ->
  exists images centers seds morphs g',
    build_scene show_image (B, N, M) K figsize false g
    = (Ok (images, centers, seds, morphs), g') /\
    shape3 images = (B, N, M) /\
    length centers = K /\ length seds = K /\
    Forall (fun s => length s = B) seds /\
    morphs = repeat arange9 K.
Proof.
  intros HN HM.
  destruct (build_scene_built show_image B N M K figsize g HN HM)
    as (images & comps & g' & E & Hlen & Hsh & _ & Hok & Hmor & _).
  exists images, (centers_of comps), (seds_of comps), (morphs_of comps), g'.
  split; [done|]. split; [done|].
  unfold centers_of, seds_of, morphs_of. rewrite !length_map.
  split; [done|]. split; [done|]. split.
  - apply Forall_fmap. eapply Forall_impl; [exact Hok|].
    by intros c (Hl & _).
  - subst K. clear -Hmor. induction Hmor as [|c comps Hc Hmor IH]; [done|].
    cbn. by rewrite Hc, IH.
Qed.

Lemma pixel_after_rev_comm (mul_comm : forall x y : T, x *! y = y *! x)
    comps ch i j (v : T) :
  pixel_after_rev comps ch i j v = pixel_after comps ch i j v.
Proof.
  unfold pixel_after_rev, pixel_after. apply fold_left_ext_in.
  intros acc c _. unfold contribution_rev, contribution. by rewrite mul_comm.
Qed.

(** The image of a built scene is the model of its components. *)
Lemma build_scene_render (mul_comm : forall x y : T, x *! y = y *! x)
    (show_image : ndarray3 T -> option (Z * Z) -> result unit)
    (B N M K : nat) (figsize : option (Z * Z)) (g : G) :
  (8 < N)%nat -> (8 < M)%nat -> (0 < K)%nat ->
  exists images comps c0 g',
    build_scene show_image (B, N, M) K figsize false g
    = (Ok (images, centers_of comps, seds_of comps, morphs_of comps), g') /\
    length comps = K /\
    Forall (component_ok (B, N, M)) comps /\
    last comps = Some c0 /\
    shape3 images = (B, N, M) /\
    get_full_model (seds_of comps) (morphs_of comps) (centers_of comps) (B, N, M)
    = Ok (images, center_box (center c0)).
Proof.
  intros HN HM HK.
  destruct (build_scene_built show_image B N M K figsize g HN HM)
    as (images & comps & g' & E & Hlen & Hsh & Hwf & Hok & _ & Hpx).
  assert (exists c0, last comps = Some c0) as [c0 Hlast].
  { apply last_is_Some. intros ->. cbn in Hlen. lia. }
  destruct (get_full_model_pixel B N M comps c0 Hok Hlast)
    as (model & Em & Hshm & Hwfm & Hpxm).
  exists images, comps, c0, g'. repeat (split; [done|]).
  rewrite Em. do 2 f_equal.
  unfold wf3 in Hwf, Hwfm. rewrite Hsh in Hwf. rewrite Hshm in Hwfm.
  cbn [fst snd] in Hwf, Hwfm. rewrite Hwf, Hwfm.
  apply tab3_ext. intros ch i j Hch Hi Hj.
  rewrite Hpx, Hpxm by done. symmetry. by apply pixel_after_rev_comm.
Qed.


(** The pipeline on components that fit: the model, the incoming
    gradient and the per-component results. *)
Lemma direct_pipeline_ok comps c0 (data : ndarray3 T) :
  Forall (component_ok (shape3 data)) comps ->
  last comps = Some c0 ->
  exists model gL rs,
    get_full_model (seds_of comps) (morphs_of comps) (centers_of comps)
                   (shape3 data) = Ok (model, center_box (center c0)) /\
    grad_logL data model num_one = Ok gL /\
    shape3 gL = shape3 data /\
    (forall ch i j, (ch < fst (fst (shape3 data)))%nat ->
       (i < snd (fst (shape3 data)))%nat -> (j < snd (shape3 data))%nat ->
       get3 gL ch i j = num_one *! (get3 model ch i j -! get3 data ch i j)) /\
    Forall2 (fun c r =>
      grad_get_component_model gL model (sed c) (morph c) (center c) = Ok r)
      comps rs /\
    calculate_gradients_direct data (centers_of comps) (seds_of comps)
                               (morphs_of comps) = Ok (map fst rs, map snd rs).
Proof.
  intros Hok Hlast.
  destruct (get_full_model_ok _ _ _ Hok Hlast) as (model & Em & _ & Hsh).
  destruct (grad_logL_same_shape data model num_one Hsh) as (gL & EgL & HshL & HgL).
  destruct (grad_components_ok _ gL model comps HshL Hok) as (rs & Hrs).
  exists model, gL, rs. repeat (split; [done|]).
  unfold calculate_gradients_direct. rewrite Em. cbn. rewrite EgL. cbn.
  rewrite grad_get_full_model_comps.
  by rewrite (grad_components_collect gL model comps rs).
Qed.

(** X10. A scene built for K >= 1 components is accepted by the
    gradient pipeline: [calculate_gradients_direct] on the four values
    [build_scene] returns does not raise and gives K sed gradients and
    K morph gradients. *)
Theorem X10_scene_feeds_pipeline
    (show_image : ndarray3 T -> option (Z * Z) -> result unit)
    (B N M K : nat) (figsize : option (Z * Z)) (g : G) :
  (8 < N)%nat -> (8 < M)%nat -> (0 < K)%nat ->
  exists images centers seds morphs g' sgs mgs,
    build_scene show_image (B, N, M) K figsize false g
    = (Ok (images, centers, seds, morphs), g') /\
    calculate_gradients_direct images centers seds morphs = Ok (sgs, mgs) /\
    length sgs = K /\ length mgs = K.
Proof.
  intros HN HM HK.
  destruct (build_scene_built show_image B N M K figsize g HN HM)
    as (images & comps & g' & E & Hlen & Hsh & _ & Hok & _).
  assert (exists c0, last comps = Some c0) as [c0 Hlast].
  { apply last_is_Some. intros ->. cbn in Hlen. lia. }
  rewrite <- Hsh in Hok.
  destruct (direct_pipeline_ok comps c0 images Hok Hlast)
    as (model & gL & rs & _ & _ & _ & _ & Hrs & Ecalc).
  exists images, (centers_of comps), (seds_of comps), (morphs_of comps), g',
         (map fst rs), (map snd rs).
  split; [done|]. split; [done|]. rewrite !length_map.
  rewrite <- (Forall2_length _ _ _ Hrs). done.
Qed.

End SceneUse.

Lemma X8_scene_contents_witness :
  exists images centers seds morphs g',
    build_scene (T:=float) (G:=Z) (fun _ _ => Ok tt) (3, 11, 12)%nat 4
                (Some (8, 8)) false 7
    = (Ok (images, centers, seds, morphs), g') /\
    shape3 images = (3, 11, 12)%nat /\
    length centers = 4%nat /\ length seds = 4%nat /\
    Forall (fun s => length s = 3%nat) seds /\
    morphs = repeat arange9 4.
Proof.
  apply (X8_scene_contents (T:=float) (G:=Z) (fun _ _ => Ok tt)
           3 11 12 4 (Some (8, 8)) 7); lia.
Defined.


Lemma X10_scene_feeds_pipeline_witness :
  exists images centers seds morphs g' sgs mgs,
    build_scene (T:=float) (G:=Z) (fun _ _ => Ok tt) (3, 11, 12)%nat 4
                None false 7
    = (Ok (images, centers, seds, morphs), g') /\
    calculate_gradients_direct images centers seds morphs = Ok (sgs, mgs) /\
    length sgs = 4%nat /\ length mgs = 4%nat.
Proof.
  apply (X10_scene_feeds_pipeline (T:=float) (G:=Z) (fun _ _ => Ok tt)
           3 11 12 4 None 7); lia.
Defined.

(** ** Exact arithmetic *)

Section Exact.
Context {T : Type} `{Num T} `{!NumRing T}.

Add Ring num_ring_inst : num_ring.

Lemma num_mul_comm (x y : T) : x *! y = y *! x.
Proof using Type*. ring. Qed.

Lemma sum_upto_S n (f : nat -> T) : sum_upto (S n) f = sum_upto n f +! f n.
Proof. unfold sum_upto. by rewrite seq_S, fold_left_app. Qed.

Lemma sum_upto_zero n (f : nat -> T) :
  (forall i, (i < n)%nat -> f i = num_zero) -> sum_upto n f = num_zero.
Proof using Type*.
  induction n as [|n IH]; intros Hf; [done|].
  rewrite sum_upto_S, IH by (intros; apply Hf; lia).
  rewrite Hf by lia. ring.
Qed.

Lemma sum_upto_add n (f g : nat -> T) :
  sum_upto n (fun i => f i +! g i) = sum_upto n f +! sum_upto n g.
Proof using Type*.
  induction n as [|n IH].
  - unfold sum_upto; cbn. ring.
  - rewrite !sum_upto_S, IH. ring.
Qed.

End Exact.

Section Optimum.
Context {T : Type} `{Num T} `{!NumRing T} {G : Type} `{!RandomState T G}.

Add Ring num_ring_inst2 : num_ring.

(** X11. In exact arithmetic the gradient vanishes at the scene's own
    parameters: for the image, centers, seds and morphologies that
    [build_scene] returns for K >= 1 components,
    [calculate_gradients_direct] gives sed and morph gradients whose
    every entry is zero. *)
Theorem X11_gradient_vanishes
    (show_image : ndarray3 T -> option (Z * Z) -> result unit)
    (B N M K : nat) (figsize : option (Z * Z)) (g : G) :
  (8 < N)%nat -> (8 < M)%nat -> (0 < K)%nat ->
  exists images centers seds morphs g' sgs mgs,
    build_scene show_image (B, N, M) K figsize false g
    = (Ok (images, centers, seds, morphs), g') /\
    calculate_gradients_direct images centers seds morphs = Ok (sgs, mgs) /\
    (forall k sg ch, sgs !! k = Some sg -> (ch < B)%nat ->
       length sg = B /\ get1 sg ch = num_zero) /\
    (forall k mg i j, mgs !! k = Some mg -> (i < 3)%nat -> (j < 3)%nat ->
       shape2 mg = (3%nat, 3%nat) /\ get2 mg i j = num_zero).
Proof using Type*.
  intros HN HM HK.
  destruct (build_scene_render num_mul_comm show_image B N M K figsize g HN HM HK)
    as (images & comps & c0 & g' & E & Hlen & Hok & Hlast & Hsh & Er).
  rewrite <- Hsh in Hok, Er.
  destruct (direct_pipeline_ok comps c0 images Hok Hlast)
    as (model & gL & rs & Em & _ & HshL & HgL & Hrs & Ecalc).
  rewrite Er in Em. injection Em as <-.
  exists images, (centers_of comps), (seds_of comps), (morphs_of comps), g',
         (map fst rs), (map snd rs).
  split; [done|]. split; [done|].
  assert (forall k r, rs !! k = Some r ->
            exists c, comps !! k = Some c /\
              grad_get_component_model gL images (sed c) (morph c) (center c)
              = Ok r /\ component_ok (shape3 images) c) as Hk.
  { intros k r Hr.
    destruct (Forall2_lookup_r _ _ _ _ _ Hrs Hr) as (c & Hc & Ec).
    exists c. split; [done|]. split; [done|]. by eapply Forall_lookup_1. }
  assert (forall (c : component T) ch i j, component_ok (shape3 images) c ->
            (ch < B)%nat -> (i < 3)%nat -> (j < 3)%nat ->
            get3 gL ch (window_index (fst (center c)) i)
                       (window_index (snd (center c)) j) = num_zero) as Hzero.
  { intros c ch i j (_ & _ & Hy & Hx) Hch Hi Hj. rewrite Hsh in *. cbn [fst snd] in *.
    rewrite HgL; [ring|done|by apply window_index_inside..]. }
  split.
  - intros k sg ch Hsg Hch. rewrite list_lookup_fmap in Hsg.
    destruct (rs !! k) as [[sg' mg']|] eqn:Er'; [|done]. injection Hsg as <-.
    destruct (Hk k _ Er') as (c & _ & Ec & Hc).
    destruct (grad_get_component_model_ok _ gL images c HshL Hc)
      as (sg & mg & E' & Hl & _ & Hsgf & _).
    rewrite Ec in E'. injection E' as <- <-.
    rewrite Hsh in Hl, Hsgf. cbn [fst snd] in Hl, Hsgf.
    split; [done|]. rewrite Hsgf by done.
    apply sum_upto_zero; intros i Hi. apply sum_upto_zero; intros j Hj.
    rewrite Hzero by done. ring.
  - intros k mg i j Hmg Hi Hj. rewrite list_lookup_fmap in Hmg.
    destruct (rs !! k) as [[sg' mg']|] eqn:Er'; [|done]. injection Hmg as <-.
    destruct (Hk k _ Er') as (c & _ & Ec & Hc).
    destruct (grad_get_component_model_ok _ gL images c HshL Hc)
      as (sg & mg & E' & _ & Hs2 & _ & Hmgf).
    rewrite Ec in E'. injection E' as <- <-.
    rewrite Hsh in Hmgf. cbn [fst snd] in Hmgf.
    split; [done|]. rewrite Hmgf by done.
    apply sum_upto_zero; intros ch Hch.
    rewrite Hzero by done. ring.
Qed.

End Optimum.

Lemma X11_gradient_vanishes_witness :
  exists images centers seds morphs g' sgs mgs,
    build_scene (T:=Qc) (G:=Z) (fun _ _ => Ok tt) (3, 11, 12)%nat 4 None false 7
    = (Ok (images, centers, seds, morphs), g') /\
    calculate_gradients_direct images centers seds morphs = Ok (sgs, mgs) /\
    (forall k sg ch, sgs !! k = Some sg -> (ch < 3)%nat ->
       length sg = 3%nat /\ get1 sg ch = num_zero) /\
    (forall k mg i j, mgs !! k = Some mg -> (i < 3)%nat -> (j < 3)%nat ->
       shape2 mg = (3%nat, 3%nat) /\ get2 mg i j = num_zero).
Proof.
  apply (X11_gradient_vanishes (T:=Qc) (G:=Z) (fun _ _ => Ok tt)
           3 11 12 4 None 7); lia.
Defined.

(** ** The forward pass written for autograd *)

Section AutogradForward.
Context {T : Type} `{Num T}.

Lemma pslice_indices_None n : pslice_indices slice_None n = (0%nat, n).
Proof. unfold pslice_indices; cbn. f_equal; lia. Qed.

Lemma add_slice_with_channels (a src : ndarray3 T) (bx : box) :
  add_slice a src (with_channels bx) = iadd_box a bx src.
Proof.
  unfold add_slice, iadd_box, with_channels.
  destruct (shape3 a) as [[b n] m].
  rewrite pslice_indices_None.
  change (pslice_indices (of_slice (fst bx)) n) with (slice_indices (fst bx) n).
  change (pslice_indices (of_slice (snd bx)) m) with (slice_indices (snd bx) m).
  destruct (slice_indices (fst bx) n) as [r0 nr].
  destruct (slice_indices (snd bx) m) as [c0 nc].
  destruct (shape3 src) as [[sb sn] sm].
  destruct (raise_unless _ _); cbn -[Nat.ltb Nat.leb Nat.sub]; [|done].
  f_equal. apply tab3_ext. intros ch i j Hch Hi Hj.
  rewrite Nat.sub_0_r.
  change (0 <=? ch)%nat with true.
  destruct (Nat.ltb_spec ch b); [|lia]. done.
Qed.

(** Two loops whose bodies keep their states related, and raise
    together, end related or raise together. *)
Lemma foldM_related {A S1 S2} (R : S1 -> S2 -> Prop)
    (f : S1 -> A -> result S1) (g : S2 -> A -> result S2) (l : list A) :
  (forall s1 s2 a, R s1 s2 ->
     match f s1 a, g s2 a with
     | Ok s1', Ok s2' => R s1' s2'
     | Err e1, Err e2 => e1 = e2
     | _, _ => False
     end) ->
  forall s1 s2, R s1 s2 ->
    match foldM f s1 l, foldM g s2 l with
    | Ok s1', Ok s2' => R s1' s2'
    | Err e1, Err e2 => e1 = e2
    | _, _ => False
    end.
Proof.
  intros Hstep. induction l as [|a l IH]; intros s1 s2 HR; cbn; [done|].
  specialize (Hstep s1 s2 a HR).
  destruct (f s1 a) as [s1'|e1], (g s2 a) as [s2'|e2]; cbn; try done.
  by apply IH.
Qed.

Lemma get_full_model_autograd_direct (seds : list (list T))
    (morphs : list (ndarray2 T)) (centers : list (Z * Z))
    (shape : nat * nat * nat) :
  get_full_model_autograd seds morphs centers shape
  = (r ← get_full_model seds morphs centers shape;
     Ok (fst r, with_channels (snd r))).
Proof.
  unfold get_full_model_autograd, get_full_model, get_full_model_loop.
  pose (R := fun (sa : autograd_locals (T:=T)) (sr : render_locals (T:=T)) =>
               al_model sa = rl_model sr /\
               al_box sa = with_channels <$> rl_box sr).
  assert (R (AutogradLocals (np_zeros shape) [] None)
            (RenderLocals (np_zeros shape) [] None)) as HR by done.
  pose proof (foldM_related R
    (get_full_model_autograd_body seds morphs centers)
    (get_full_model_body seds morphs centers) (seq 0 (length seds))) as Hfold.
  specialize (Hfold ltac:(
    intros sa sr k [Hm Hb];
    unfold get_full_model_autograd_body, get_full_model_body;
    destruct (index seds k) as [sd|]; cbn; [|done];
    destruct (index morphs k) as [mo|]; cbn; [|done];
    destruct (index centers k) as [ct|]; cbn; [|done];
    destruct (get_component_model sd mo ct) as [_model bx] eqn:Egc;
    rewrite add_slice_with_channels, Hm;
    destruct (iadd_box (rl_model sr) bx _model); cbn; done) _ _ HR).
  destruct (foldM (get_full_model_autograd_body _ _ _) _ _) as [sa|ea],
           (foldM (get_full_model_body _ _ _) _ _) as [sr|er];
    cbn; try done; [|by subst].
  destruct Hfold as [Hm Hb]. rewrite Hb, Hm.
  by destruct (rl_box sr).
Qed.

(** X12. [get_full_model_autograd] computes what [get_full_model]
    computes, on every input: the same model, the same exception, and the
    same box with [slice(None)] put in front. *)
Theorem X12_autograd_forward (seds : list (list T)) (morphs : list (ndarray2 T))
    (centers : list (Z * Z)) (shape : nat * nat * nat) :
  get_full_model_autograd seds morphs centers shape
  = match get_full_model seds morphs centers shape with
    | Ok (model, bx) => Ok (model, with_channels bx)
    | Err e => Err e
    end.
Proof.
  rewrite get_full_model_autograd_direct.
  by destruct (get_full_model seds morphs centers shape) as [[model bx]|e].
Qed.

End AutogradForward.

(** ** The adjoints registered for [add_slice] *)

Section Adjoint.
Context {T : Type} `{Num T} `{!NumRing T}.

Add Ring num_ring_inst3 : num_ring.

Lemma pslice_indices_bound (s : pslice) (n : nat) :
  (fst (pslice_indices s n) + snd (pslice_indices s n) <= n)%nat.
Proof.
  unfold pslice_indices, clip_bound. destruct s as [[a|] [b|]]; cbn;
    repeat match goal with |- context [(?x <? 0)%Z] =>
      destruct (Z.ltb_spec x 0) end; lia.
Qed.

Lemma sum_upto_if (b : bool) n (f : nat -> T) :
  sum_upto n (fun i => if b then f i else num_zero)
  = if b then sum_upto n f else num_zero.
Proof using Type*. destruct b; [done|]. by apply sum_upto_zero. Qed.

(** A sum restricted to a window of the range is the sum over the
    window. *)
Lemma sum_upto_window n r0 nr (f : nat -> T) :
  (r0 + nr <= n)%nat ->
  sum_upto n (fun i => if (r0 <=? i)%nat && (i <? r0 + nr)%nat
                       then f i else num_zero)
  = sum_upto nr (fun i => f (r0 + i)%nat).
Proof using Type*.
  revert nr. induction n as [|n IH]; intros nr Hle.
  - by replace nr with 0%nat by lia.
  - rewrite sum_upto_S.
    destruct (decide (r0 + nr <= n)%nat) as [Hn|Hn].
    + rewrite IH by done.
      destruct (Nat.ltb_spec n (r0 + nr)); [lia|].
      rewrite andb_false_r. ring.
    + destruct nr as [|nr].
      * rewrite sum_upto_zero; [|intros i Hi].
        -- destruct (Nat.leb_spec r0 n); [lia|]. cbn [andb].
           unfold sum_upto; cbn. ring.
        -- destruct (Nat.leb_spec r0 i); [lia|]. done.
      * rewrite sum_upto_S.
        replace (r0 + nr)%nat with n by lia.
        destruct (Nat.leb_spec r0 n); [|lia].
        destruct (Nat.ltb_spec n (r0 + S nr)); [|lia]. cbn [andb].
        f_equal. rewrite <- (IH nr) by lia.
        apply sum_upto_ext; intros i Hi.
        destruct (Nat.ltb_spec i (r0 + S nr)), (Nat.ltb_spec i (r0 + nr));
          try lia; done.
Qed.

Lemma sum3_ext b n m (f g : nat -> nat -> nat -> T) :
  (forall c i j, (c < b)%nat -> (i < n)%nat -> (j < m)%nat -> f c i j = g c i j) ->
  sum_upto b (fun c => sum_upto n (fun i => sum_upto m (fun j => f c i j)))
  = sum_upto b (fun c => sum_upto n (fun i => sum_upto m (fun j => g c i j))).
Proof using Type.
  intros Hfg. apply sum_upto_ext; intros c Hc.
  apply sum_upto_ext; intros i Hi. apply sum_upto_ext; intros j Hj. by apply Hfg.
Qed.

Lemma sum3_add b n m (f g : nat -> nat -> nat -> T) :
  sum_upto b (fun c => sum_upto n (fun i => sum_upto m (fun j =>
    f c i j +! g c i j)))
  = sum_upto b (fun c => sum_upto n (fun i => sum_upto m (fun j => f c i j)))
    +! sum_upto b (fun c => sum_upto n (fun i => sum_upto m (fun j => g c i j))).
Proof using Type*.
  rewrite <- sum_upto_add. apply sum_upto_ext; intros c Hc.
  rewrite <- sum_upto_add. apply sum_upto_ext; intros i Hi.
  apply sum_upto_add.
Qed.

Lemma sum3_window b n m ch0 nch r0 nr c0 nc (f : nat -> nat -> nat -> T) :
  (ch0 + nch <= b)%nat -> (r0 + nr <= n)%nat -> (c0 + nc <= m)%nat ->
  sum_upto b (fun c => sum_upto n (fun i => sum_upto m (fun j =>
    if (ch0 <=? c)%nat && (c <? ch0 + nch)%nat
       && (r0 <=? i)%nat && (i <? r0 + nr)%nat
       && (c0 <=? j)%nat && (j <? c0 + nc)%nat
    then f c i j else num_zero)))
  = sum_upto nch (fun c => sum_upto nr (fun i => sum_upto nc (fun j =>
      f (ch0 + c) (r0 + i) (c0 + j))%nat)).
Proof using Type*.
  intros Hb Hn Hm.
  rewrite <- (sum_upto_window b ch0 nch (fun c =>
    sum_upto nr (fun i => sum_upto nc (fun j => f c (r0 + i) (c0 + j))%nat)))
    by done.
  apply sum_upto_ext; intros c Hc.
  rewrite <- sum_upto_if.
  rewrite <- (sum_upto_window n r0 nr (fun i =>
    if (ch0 <=? c)%nat && (c <? ch0 + nch)%nat
    then sum_upto nc (fun j => f c i (c0 + j)%nat) else num_zero)) by done.
  apply sum_upto_ext; intros i Hi.
  rewrite <- !sum_upto_if.
  rewrite <- (sum_upto_window m c0 nc (fun j =>
    if (r0 <=? i)%nat && (i <? r0 + nr)%nat
    then if (ch0 <=? c)%nat && (c <? ch0 + nch)%nat then f c i j else num_zero
    else num_zero)) by done.
  apply sum_upto_ext; intros j Hj.
  by destruct (ch0 <=? c)%nat, (c <? ch0 + nch)%nat, (r0 <=? i)%nat,
    (i <? r0 + nr)%nat, (c0 <=? j)%nat, (j <? c0 + nc)%nat.
Qed.

(** X13. The two functions registered with [defvjp] are the adjoints of
    [add_slice]: when the source has exactly the shape of the selected
    window, pairing the result with a gradient [g] of the destination's
    shape gives the destination paired with what [grad_add_slice_dest]
    returns for [g], plus the source paired with what [grad_add_slice_src]
    returns for [g]. *)
Theorem X13_add_slice_adjoint (destination source g r : ndarray3 T)
    (slices : pslice * pslice * pslice) :
  add_slice destination source slices = Ok r ->
  shape3 source = shape3 (getitem_slices destination slices) ->
  shape3 g = shape3 destination ->
  inner3 r g
  = inner3 destination (grad_add_slice_dest r destination source slices g)
    +! inner3 source (grad_add_slice_src r destination source slices g).
Proof using Type*.
  unfold add_slice, grad_add_slice_dest, grad_add_slice_src, getitem_slices, inner3.
  intros Hr Hs Hg. rewrite Hg.
  destruct (shape3 destination) as [[b n] m]. destruct slices as [[s0 s1] s2].
  pose proof (pslice_indices_bound s0 b) as Hb.
  pose proof (pslice_indices_bound s1 n) as Hn.
  pose proof (pslice_indices_bound s2 m) as Hm.
  destruct (pslice_indices s0 b) as [ch0 nch].
  destruct (pslice_indices s1 n) as [r0 nr].
  destruct (pslice_indices s2 m) as [c0 nc].
  cbn [fst snd] in Hb, Hn, Hm.
  rewrite shape3_tab3 in Hs. rewrite Hs in Hr |- *.
  rewrite !fits_same in Hr. cbn -[Nat.ltb Nat.leb Nat.sub] in Hr.
  injection Hr as <-. rewrite shape3_tab3.
  rewrite (sum3_ext b n m _ (fun c i j =>
    get3 destination c i j *! get3 g c i j
    +! (if (ch0 <=? c)%nat && (c <? ch0 + nch)%nat
           && (r0 <=? i)%nat && (i <? r0 + nr)%nat
           && (c0 <=? j)%nat && (j <? c0 + nc)%nat
        then get3 source (bidx nch (c - ch0)) (bidx nr (i - r0)) (bidx nc (j - c0))
             *! get3 g c i j
        else num_zero))).
  2:{ intros c i j Hc Hi Hj. rewrite get3_tab3 by done.
      destruct (_ && _); ring. }
  rewrite sum3_add. f_equal.
  rewrite sum3_window by done.
  apply sum3_ext; intros c i j Hc Hi Hj.
  rewrite get3_tab3 by done.
  replace (ch0 + c - ch0)%nat with c by lia.
  replace (r0 + i - r0)%nat with i by lia.
  replace (c0 + j - c0)%nat with j by lia.
  by rewrite !bidx_lt.
Qed.

End Adjoint.

Lemma X13_add_slice_adjoint_witness :
  exists r,
    add_slice sample_data (outer (sed first_component) (morph first_component))
              (with_channels (center_box (center first_component))) = Ok r /\
    inner3 r sample_data
    = inner3 sample_data
        (grad_add_slice_dest r sample_data
           (outer (sed first_component) (morph first_component))
           (with_channels (center_box (center first_component))) sample_data)
      +! inner3 (outer (sed first_component) (morph first_component))
        (grad_add_slice_src r sample_data
           (outer (sed first_component) (morph first_component))
           (with_channels (center_box (center first_component))) sample_data).
Proof.
  eexists. split; [vm_compute; reflexivity|].
  apply (X13_add_slice_adjoint (T:=Z)); reflexivity.
Defined.

(** ** The log-likelihood and its gradient *)

Section LogLGradient.
Context {T : Type} `{Num T} `{!NumRing T} `{!NumHalf T}.

Add Ring num_ring_inst4 : num_ring.

Lemma logL_same_shape (data model : ndarray3 T) (w : T) :
  shape3 model = shape3 data ->
  exists L, logL data model w = Ok L /\
    shape3 L = shape3 data /\
    forall ch i j,
      (ch < fst (fst (shape3 data)))%nat ->
      (i < snd (fst (shape3 data)))%nat ->
      (j < snd (shape3 data))%nat ->
      get3 L ch i j
      = num_half *! w *! ((get3 data ch i j -! get3 model ch i j)
                          *! (get3 data ch i j -! get3 model ch i j)).
Proof using Type.
  intros Hsh. unfold logL, np_binop. rewrite Hsh.
  destruct (shape3 data) as [[b n] m]. rewrite !bdim_same. cbn.
  eexists; split; [done|]. unfold np_scale, np_square.
  rewrite !shape3_tab3. split; [done|].
  intros ch i j Hc Hi Hj. rewrite !get3_tab3 by done. by rewrite !bidx_lt.
Qed.

(** X14. [grad_logL] is the derivative of [logL] in the model: when
    twice [0.5] is one, moving a model of the data's shape by [h] changes
    every entry of [logL] by the entry of [grad_logL] times the entry of
    [h], plus the second-order term [0.5*weights*h**2]. *)
Theorem X14_grad_logL_is_derivative (data model h : ndarray3 T) (w : T) :
  num_half +! num_half = num_one ->
  shape3 model = shape3 data ->
  shape3 h = shape3 data ->
  exists moved L L' gL,
    np_binop num_add model h = Ok moved /\
    logL data model w = Ok L /\
    logL data moved w = Ok L' /\
    grad_logL data model w = Ok gL /\
    forall ch i j,
      (ch < fst (fst (shape3 data)))%nat ->
      (i < snd (fst (shape3 data)))%nat ->
      (j < snd (shape3 data))%nat ->
      get3 L' ch i j
      = get3 L ch i j +! get3 gL ch i j *! get3 h ch i j
        +! num_half *! w *! (get3 h ch i j *! get3 h ch i j).
Proof using Type*.
  intros Hhalf Hm Hh.
  assert (exists moved, np_binop num_add model h = Ok moved /\
            shape3 moved = shape3 data /\
            forall ch i j,
              (ch < fst (fst (shape3 data)))%nat ->
              (i < snd (fst (shape3 data)))%nat ->
              (j < snd (shape3 data))%nat ->
              get3 moved ch i j = get3 model ch i j +! get3 h ch i j)
    as (moved & Emoved & Hshm & Hmoved).
  { unfold np_binop. rewrite Hm, Hh.
    destruct (shape3 data) as [[b n] m]. rewrite !bdim_same. cbn.
    eexists; split; [done|]. split; [done|].
    intros ch i j Hc Hi Hj. rewrite get3_tab3 by done. by rewrite !bidx_lt. }
  destruct (logL_same_shape data model w Hm) as (L & EL & _ & HL).
  destruct (logL_same_shape data moved w Hshm) as (L' & EL' & _ & HL').
  destruct (grad_logL_same_shape data model w Hm) as (gL & EgL & _ & HgL).
  exists moved, L, L', gL. repeat (split; [done|]).
  intros ch i j Hc Hi Hj.
  rewrite HL', HL, HgL, Hmoved by done.
  set (d := get3 data ch i j). set (mo := get3 model ch i j).
  set (x := get3 h ch i j).
  replace (w *! (mo -! d)) with ((num_half +! num_half) *! (w *! (mo -! d)))
    by (rewrite Hhalf; ring).
  ring.
Qed.

End LogLGradient.

Lemma X14_grad_logL_is_derivative_witness :
  exists moved L L' gL,
    np_binop num_add (np_zeros (T:=Qc) (1, 2, 2)%nat)
             (tab3 1 2 2 (fun _ i j => Q2Qc (inject_Z (Z.of_nat (i + j)))))
    = Ok moved /\
    logL (tab3 1 2 2 (fun _ _ _ => Q2Qc (3 # 2)))
         (np_zeros (1, 2, 2)%nat) (Q2Qc 2) = Ok L /\
    logL (tab3 1 2 2 (fun _ _ _ => Q2Qc (3 # 2))) moved (Q2Qc 2) = Ok L' /\
    grad_logL (tab3 1 2 2 (fun _ _ _ => Q2Qc (3 # 2)))
              (np_zeros (1, 2, 2)%nat) (Q2Qc 2) = Ok gL /\
    forall ch i j, (ch < 1)%nat -> (i < 2)%nat -> (j < 2)%nat ->
      get3 L' ch i j
      = get3 L ch i j
        +! get3 gL ch i j
           *! get3 (tab3 1 2 2 (fun _ i j => Q2Qc (inject_Z (Z.of_nat (i + j)))))
                   ch i j
        +! num_half *! Q2Qc 2
           *! (get3 (tab3 1 2 2 (fun _ i j => Q2Qc (inject_Z (Z.of_nat (i + j)))))
                    ch i j
               *! get3 (tab3 1 2 2 (fun _ i j => Q2Qc (inject_Z (Z.of_nat (i + j)))))
                       ch i j).
Proof.
  apply (X14_grad_logL_is_derivative (T:=Qc)
           (tab3 1 2 2 (fun _ _ _ => Q2Qc (3 # 2)))
           (np_zeros (1, 2, 2)%nat)
           (tab3 1 2 2 (fun _ i j => Q2Qc (inject_Z (Z.of_nat (i + j)))))
           (Q2Qc 2)).
  - apply Qc_is_canon. reflexivity.
  - reflexivity.
  - reflexivity.
Defined.

(** ** The loss at the scene's own parameters *)

Section Loss.
Context {T : Type} `{Num T} `{!NumRing T} `{!NumHalf T}
        {G : Type} `{!RandomState T G}.

Add Ring num_ring_inst5 : num_ring.

(** X15. In exact arithmetic the loss vanishes at the scene's own
    parameters: for the image, centers, seds and morphologies that
    [build_scene] returns for K >= 1 components, [loss_autograd], reading
    those centers, returns zero. *)
Theorem X15_loss_vanishes
    (show_image : ndarray3 T -> option (Z * Z) -> result unit)
    (B N M K : nat) (figsize : option (Z * Z)) (g : G) :
  (8 < N)%nat -> (8 < M)%nat -> (0 < K)%nat ->
  exists images centers seds morphs g',
    build_scene show_image (B, N, M) K figsize false g
    = (Ok (images, centers, seds, morphs), g') /\
    loss_autograd centers seds morphs images = Ok num_zero.
Proof using Type*.
  intros HN HM HK.
  destruct (build_scene_render num_mul_comm show_image B N M K figsize g HN HM HK)
    as (images & comps & c0 & g' & E & _ & _ & _ & Hsh & Er).
  exists images, (centers_of comps), (seds_of comps), (morphs_of comps), g'.
  split; [done|].
  unfold loss_autograd.
  rewrite get_full_model_autograd_direct, Hsh, Er. cbn.
  destruct (logL_same_shape images images num_one eq_refl) as (L & -> & HshL & HL).
  cbn. f_equal. unfold np_sum3. rewrite HshL, Hsh. rewrite Hsh in HL.
  cbn [fst snd] in HL.
  apply sum_upto_zero; intros ch Hch. apply sum_upto_zero; intros i Hi.
  apply sum_upto_zero; intros j Hj. rewrite HL by done. ring.
Qed.

End Loss.

Lemma X15_loss_vanishes_witness :
  exists images centers seds morphs g',
    build_scene (T:=Qc) (G:=Z) (fun _ _ => Ok tt) (3, 11, 12)%nat 4 None false 7
    = (Ok (images, centers, seds, morphs), g') /\
    loss_autograd centers seds morphs images = Ok num_zero.
Proof.
  apply (X15_loss_vanishes (T:=Qc) (G:=Z) (fun _ _ => Ok tt)
           3 11 12 4 None 7); lia.
Defined.

(** ** The picture *)

Section Picture.
Context {T : Type} `{Num T} `{!NumOrd T}.

Lemma img2rgb_entry (image : ndarray3 T) (b n m : nat) :
  num_ltb (num_of_Z 255) (num_of_Z 0) = false ->
  shape3 image = (b, n, m) ->
  shape3 (img2rgb image) = (n, m, b) /\
  forall i j c, (i < n)%nat -> (j < m)%nat -> (c < b)%nat ->
    get3 (img2rgb image) i j c
    = num_to_uint8
        (if num_ltb (num_of_Z 255) (get3 image c i j) then num_of_Z 255
         else if num_ltb (get3 image c i j) (num_of_Z 0) then num_of_Z 0
         else get3 image c i j).
Proof.
  intros Hlt Hsh. unfold img2rgb, transpose_120, astype_uint8, np_where_set.
  rewrite Hsh, !shape3_tab3. split; [done|].
  intros i j c Hi Hj Hc. rewrite !get3_tab3 by done.
  destruct (num_ltb (num_of_Z 255) (get3 image c i j)); [|done].
  by rewrite Hlt.
Qed.

(** X16. [img2rgb] clamps and then casts, with the channel moved last:
    when 255 is not below 0 in the element type, entry [(i, j, c)] of
    the result is the cast of 255 where the image entry [(c, i, j)]
    exceeds 255, of 0 where it is below 0, and of the entry itself
    elsewhere; an image of shape (b, n, m) gives shape (n, m, b). *)
Theorem X16_img2rgb_clamps (image : ndarray3 T) (b n m : nat) :
  num_ltb (num_of_Z 255) (num_of_Z 0) = false ->
  shape3 image = (b, n, m) ->
  shape3 (img2rgb image) = (n, m, b) /\
  forall i j c, (i < n)%nat -> (j < m)%nat -> (c < b)%nat ->
    get3 (img2rgb image) i j c
    = num_to_uint8
        (if num_ltb (num_of_Z 255) (get3 image c i j) then num_of_Z 255
         else if num_ltb (get3 image c i j) (num_of_Z 0) then num_of_Z 0
         else get3 image c i j).
Proof. apply img2rgb_entry. Qed.

End Picture.

(** X17. On an image of integers the cast of [img2rgb] never wraps:
    entry [(i, j, c)] of the result is the image entry [(c, i, j)]
    brought into the range 0..255. *)
Theorem X17_img2rgb_integers (image : ndarray3 Z) (b n m : nat) :
  shape3 image = (b, n, m) ->
  forall i j c, (i < n)%nat -> (j < m)%nat -> (c < b)%nat ->
    get3 (img2rgb image) i j c = Z.max 0 (Z.min 255 (get3 image c i j)).
Proof.
  intros Hsh i j c Hi Hj Hc.
  destruct (img2rgb_entry (H:=Z_Num) (NumOrd0:=Z_NumOrd) image b n m eq_refl Hsh)
    as [_ Hpx].
  rewrite Hpx by done. cbn [num_ltb num_to_uint8 num_of_Z Z_NumOrd Z_Num].
  destruct (Z.ltb_spec 255 (get3 image c i j)); [by rewrite Z.min_l, Z.max_r by lia|].
  destruct (Z.ltb_spec (get3 image c i j) 0).
  - by rewrite Z.min_r, Z.max_l by lia.
  - rewrite Z.min_r, Z.max_r by lia. apply Z.mod_small. lia.
Qed.

Lemma X16_img2rgb_clamps_witness :
  shape3 (img2rgb (tab3 3 2 2 (fun c i j =>
            (float_of_Z (Z.of_nat (200 * c + 100 * i + j)) - 150.5)%float)))
  = (2, 2, 3)%nat /\
  forall i j c, (i < 2)%nat -> (j < 2)%nat -> (c < 3)%nat ->
    get3 (img2rgb (tab3 3 2 2 (fun c i j =>
            (float_of_Z (Z.of_nat (200 * c + 100 * i + j)) - 150.5)%float))) i j c
    = num_to_uint8
        (if num_ltb (num_of_Z 255)
              (get3 (tab3 3 2 2 (fun c i j =>
                 (float_of_Z (Z.of_nat (200 * c + 100 * i + j)) - 150.5)%float))
                 c i j)
         then num_of_Z 255
         else if num_ltb
                   (get3 (tab3 3 2 2 (fun c i j =>
                      (float_of_Z (Z.of_nat (200 * c + 100 * i + j)) - 150.5)%float))
                      c i j) (num_of_Z 0)
              then num_of_Z 0
              else get3 (tab3 3 2 2 (fun c i j =>
                     (float_of_Z (Z.of_nat (200 * c + 100 * i + j)) - 150.5)%float))
                     c i j).
Proof.
  apply (X16_img2rgb_clamps (T:=float)
           (tab3 3 2 2 (fun c i j =>
              (float_of_Z (Z.of_nat (200 * c + 100 * i + j)) - 150.5)%float))
           3 2 2).
  - vm_compute. reflexivity.
  - reflexivity.
Defined.

Lemma X17_img2rgb_integers_witness :
  get3 (img2rgb (np_scale 40 sample_data)) 6 5 0
  = Z.max 0 (Z.min 255 (get3 (np_scale 40 sample_data) 0 6 5)).
Proof.
  apply (X17_img2rgb_integers (np_scale 40 sample_data) 1 7 7);
    [reflexivity|lia..].
Defined.
